(** * EdgeVision native layer: EdgeProcessor and its JNI entry points

    A shallow embedding of [edge_processor.h], [edge_processor.cpp] and
    [native-lib.cpp].  The processor keeps three reusable [cv::Mat] buffers
    and forwards the pixel work to OpenCV; the JNI functions validate the
    dimensions, call the processor and marshal the result.

    Conventions.
    - [int] / [jint] values are [Z]; the one [int] multiplication of the code
      ([width * height]) is written with its 32-bit wrap-around, and its
      conversion to [size_t] with the 64-bit one.
    - [uint8_t] / [jbyte] data are [list byte].
    - [double] values are binary64 floats ([PrimFloat.float]).
    - A [cv::Mat] is a record: header fields, the bytes its data pointer
      reaches, and a counter of the allocations made for it.
    - Member functions thread the object through a small state monad whose
      outcomes are: normal return, C++ exception, undefined behaviour. *)

From Stdlib.Strings Require Import String Byte.
From Stdlib Require Import ZArith List Lia Bool.
From Stdlib Require Import PrimFloat SpecFloat FloatAxioms.
Import ListNotations.

Local Open Scope Z_scope.

(** ** Machine integers *)

Definition INT_MAX : Z := 2147483647.

(** Two's-complement reduction to a 32-bit [int]. *)
Definition wrap32 (z : Z) : Z := (z + 2 ^ 31) mod 2 ^ 32 - 2 ^ 31.

(** [a * b] on [int] operands. *)
Definition int_mul (a b : Z) : Z := wrap32 (a * b).

(** Implicit conversion of an [int] to [size_t] (64-bit target). *)
Definition to_size_t (z : Z) : Z := z mod 2 ^ 64.

(** ** Outcomes and the state monad *)

Inductive exn : Type :=
| CvException (what : string)
| StdException (what : string)
| OtherException.

(** Outcome of running a member function on a state [St]:
    - [Ret a s]: returned [a], the object is now [s];
    - [Exc e s]: threw [e], the object was left as [s];
    - [UB]: the execution left the defined behaviour of C++ (an access
      outside an object), after which nothing is known. *)
Inductive outcome (St A : Type) : Type :=
| Ret (a : A) (s : St)
| Exc (e : exn) (s : St)
| UB.

Arguments Ret {St A} a s.
Arguments Exc {St A} e s.
Arguments UB {St A}.

Definition M (St A : Type) : Type := St -> outcome St A.

Definition ret {St A} (a : A) : M St A := fun s => Ret a s.

Definition bind {St A B} (c : M St A) (k : A -> M St B) : M St B :=
  fun s =>
    match c s with
    | Ret a s' => k a s'
    | Exc e s' => Exc e s'
    | UB => UB
    end.

Definition get {St} : M St St := fun s => Ret s s.

Declare Scope monad_scope.
Delimit Scope monad_scope with monad.
Notation "x <- c ;; k" := (bind c (fun x => k))
  (at level 61, c at next level, right associativity) : monad_scope.
Notation "c ;; k" := (bind c (fun _ => k))
  (at level 61, right associativity) : monad_scope.
Local Open Scope monad_scope.

(** Run a computation on a component of the state, given its getter and
    setter (a member object accessed through [this]). *)
Definition zoom {St T A} (proj : St -> T) (upd : T -> St -> St)
    (c : M T A) : M St A :=
  fun s =>
    match c (proj s) with
    | Ret a t => Ret a (upd t s)
    | Exc e t => Exc e (upd t s)
    | UB => UB
    end.

(** ** cv::Mat, 8-bit single channel *)

Record Mat : Type := mkMat {
  rows : Z;
  cols : Z;
  step : Z;                 (* bytes from one row to the next *)
  isContinuous : bool;      (* the header's continuity flag *)
  data : list byte;         (* the bytes from the data pointer on; [] when null *)
  allocs : nat              (* allocations made for this matrix so far *)
}.

(** A default-constructed [cv::Mat]: no rows, no columns, null data. *)
Definition Mat_empty : Mat := mkMat 0 0 0 false [] 0.

Definition elemSize (m : Mat) : Z := 1.
Definition total (m : Mat) : Z := rows m * cols m.

Definition data_is_null (m : Mat) : bool :=
  match data m with [] => true | _ :: _ => false end.

(** What [release()] leaves: an empty header; the counter is history. *)
Definition Mat_release (m : Mat) : Mat := mkMat 0 0 0 false [] (allocs m).

(** [cv::Mat::create(rows, cols, CV_8UC1)] as OpenCV documents it: nothing
    happens when the matrix already has that size, type and data; otherwise
    the old data are released, a negative size fails an assertion
    ([cv::Exception]), and [rows*cols] bytes are allocated when that is not
    zero.  Fresh bytes are indeterminate; they are written here as [x00] and
    no statement below reads one before it is overwritten. *)
Definition Mat_create (r c : Z) : M Mat unit :=
  fun m =>
    if (rows m =? r) && (cols m =? c) && negb (data_is_null m) then Ret tt m
    else if (r <? 0) || (c <? 0) then
      Exc (CvException "size >= 0"%string) (Mat_release m)
    else if r * c =? 0 then
      Ret tt (mkMat r c c true [] (allocs m))
    else
      Ret tt (mkMat r c c true (repeat x00 (Z.to_nat (r * c))) (S (allocs m))).

(** [memcpy(m.data, src, n)]: defined only when both objects hold [n]
    bytes. *)
Definition Mat_memcpy (src : list byte) (n : Z) : M Mat unit :=
  fun m =>
    if (n <=? Z.of_nat (length src)) && (n <=? Z.of_nat (length (data m))) then
      Ret tt (mkMat (rows m) (cols m) (step m) (isContinuous m)
                (firstn (Z.to_nat n) src ++ skipn (Z.to_nat n) (data m))
                (allocs m))
    else UB.

(** The bytes [mat.ptr<uint8_t>(i)] .. [+ cols * elemSize]. *)
Definition Mat_row (m : Mat) (i : Z) : list byte :=
  firstn (Z.to_nat (cols m * elemSize m)) (skipn (Z.to_nat (i * step m)) (data m)).

(** The pixel at row [i], column [j]. *)
Definition Mat_at (m : Mat) (i j : nat) : byte :=
  nth (i * Z.to_nat (step m) + j)%nat (data m) x00.

(** The image read row by row, pixel by pixel. *)
Definition row_major (m : Mat) : list byte :=
  flat_map (fun i => map (Mat_at m i) (seq 0 (Z.to_nat (cols m))))
           (seq 0 (Z.to_nat (rows m))).

(** Every output pixel written: the [k]-th pixel in row-major order gets
    [px k]. *)
Definition Mat_fill (px : nat -> byte) : M Mat unit :=
  fun m =>
    Ret tt (mkMat (rows m) (cols m) (step m) (isContinuous m)
              (map px (seq 0 (Z.to_nat (total m)))) (allocs m)).

(** ** OpenCV's image routines

    The pixel arithmetic of [cv::GaussianBlur] and [cv::Canny] is OpenCV's,
    not this repository's: it is a parameter of the model.  Each routine is
    a function from its arguments and the source image to the value of every
    output pixel. *)

Record ImgProc : Type := mkImgProc {
  (* ksize, sigmaX, rows, cols, source pixels, output index *)
  GaussianBlur_px : Z * Z -> float -> Z -> Z -> list byte -> nat -> byte;
  (* rows, cols, source pixels, threshold1, threshold2, apertureSize, index *)
  Canny_px : Z -> Z -> list byte -> float -> float -> Z -> nat -> byte
}.

(** A routine with an [OutputArray]: the destination is given the source's
    size with [create], then every pixel is written. *)
Definition cv_GaussianBlur (cv : ImgProc) (src : Mat) (ksize : Z * Z)
    (sigmaX : float) : M Mat unit :=
  Mat_create (rows src) (cols src) ;;
  Mat_fill (GaussianBlur_px cv ksize sigmaX (rows src) (cols src) (row_major src)).

Definition cv_Canny (cv : ImgProc) (image : Mat) (threshold1 threshold2 : float)
    (apertureSize : Z) : M Mat unit :=
  Mat_create (rows image) (cols image) ;;
  Mat_fill (Canny_px cv (rows image) (cols image) (row_major image)
              threshold1 threshold2 apertureSize).

(** ** EdgeProcessor *)

Record EdgeProcessor : Type := mkEdgeProcessor {
  cannyThreshold1 : float;
  cannyThreshold2 : float;
  cannyApertureSize : Z;
  grayBuffer : Mat;
  blurredBuffer : Mat;
  edgesBuffer : Mat;
  lastWidth : Z;
  lastHeight : Z
}.

Definition set_grayBuffer (g : Mat) (p : EdgeProcessor) : EdgeProcessor :=
  mkEdgeProcessor (cannyThreshold1 p) (cannyThreshold2 p) (cannyApertureSize p)
    g (blurredBuffer p) (edgesBuffer p) (lastWidth p) (lastHeight p).

Definition set_blurredBuffer (b : Mat) (p : EdgeProcessor) : EdgeProcessor :=
  mkEdgeProcessor (cannyThreshold1 p) (cannyThreshold2 p) (cannyApertureSize p)
    (grayBuffer p) b (edgesBuffer p) (lastWidth p) (lastHeight p).

Definition set_edgesBuffer (e : Mat) (p : EdgeProcessor) : EdgeProcessor :=
  mkEdgeProcessor (cannyThreshold1 p) (cannyThreshold2 p) (cannyApertureSize p)
    (grayBuffer p) (blurredBuffer p) e (lastWidth p) (lastHeight p).

Definition set_last (w h : Z) : M EdgeProcessor unit :=
  fun p =>
    Ret tt (mkEdgeProcessor (cannyThreshold1 p) (cannyThreshold2 p)
              (cannyApertureSize p) (grayBuffer p) (blurredBuffer p)
              (edgesBuffer p) w h).

(** The constructor's initialiser list; the three matrices are
    default-constructed. *)
Definition EdgeProcessor_new : EdgeProcessor :=
  mkEdgeProcessor 50.0%float 150.0%float 3 Mat_empty Mat_empty Mat_empty 0 0.

Definition setCannyThresholds (threshold1 threshold2 : float) : M EdgeProcessor unit :=
  fun p =>
    Ret tt (mkEdgeProcessor threshold1 threshold2 (cannyApertureSize p)
              (grayBuffer p) (blurredBuffer p) (edgesBuffer p)
              (lastWidth p) (lastHeight p)).

Definition on_gray {A} : M Mat A -> M EdgeProcessor A := zoom grayBuffer set_grayBuffer.
Definition on_blurred {A} : M Mat A -> M EdgeProcessor A := zoom blurredBuffer set_blurredBuffer.
Definition on_edges {A} : M Mat A -> M EdgeProcessor A := zoom edgesBuffer set_edgesBuffer.

(** [b.cols != width || b.rows != height] *)
Definition dims_differ (b : Mat) (width height : Z) : bool :=
  negb (cols b =? width) || negb (rows b =? height).

Definition yuv420ToGray (yuvData : list byte) (width height : Z) : M EdgeProcessor Mat :=
  p <- get ;;
  (if dims_differ (grayBuffer p) width height then
     on_gray (Mat_create height width) ;;
     set_last width height
   else ret tt) ;;
  on_gray (Mat_memcpy yuvData (to_size_t (int_mul width height))) ;;
  p' <- get ;;
  ret (grayBuffer p').

Definition processGrayscale (yuvData : list byte) (width height : Z) : M EdgeProcessor Mat :=
  yuv420ToGray yuvData width height.

Definition processCanny (cv : ImgProc) (yuvData : list byte) (width height : Z)
    : M EdgeProcessor Mat :=
  grayMat <- yuv420ToGray yuvData width height ;;
  p <- get ;;
  (if dims_differ (blurredBuffer p) width height then
     on_blurred (Mat_create height width)
   else ret tt) ;;
  p <- get ;;
  (if dims_differ (edgesBuffer p) width height then
     on_edges (Mat_create height width)
   else ret tt) ;;
  on_blurred (cv_GaussianBlur cv grayMat (5, 5) 1.5%float) ;;
  p <- get ;;
  on_edges (cv_Canny cv (blurredBuffer p) (cannyThreshold1 p) (cannyThreshold2 p)
              (cannyApertureSize p)) ;;
  p' <- get ;;
  ret (edgesBuffer p').

(** The row loop of [matToByteArray]: [n] iterations left, at row [i]. *)
Fixpoint insert_rows (mat : Mat) (n : nat) (i : Z) (byteArray : list byte) : list byte :=
  match n with
  | O => byteArray
  | S n' => insert_rows mat n' (i + 1) (byteArray ++ Mat_row mat i)
  end.

Definition matToByteArray (mat : Mat) : list byte :=
  if isContinuous mat then
    firstn (Z.to_nat (total mat * elemSize mat)) (data mat)
  else
    insert_rows mat (Z.to_nat (rows mat)) 0 [].

(** ** The JNI layer ([native-lib.cpp]) *)

Inductive priority : Type := ANDROID_LOG_DEBUG | ANDROID_LOG_INFO | ANDROID_LOG_ERROR.

Inductive log_arg : Type :=
| ArgInt (z : Z)
| ArgStr (s : string).

(** One [__android_log_print] call: priority, tag, format and arguments. *)
Record log_entry : Type := mkLog {
  log_prio : priority;
  log_tag : string;
  log_fmt : string;
  log_args : list log_arg
}.

Definition EdgeProcessor_TAG : string := "EdgeProcessor"%string.
Definition LOG_TAG : string := "EdgeVision-Native"%string.

(** The process as the entry points see it: the global processor pointer
    ([None] is [nullptr]) and what has been logged. *)
Record Process : Type := mkProcess {
  g_edgeProcessor : option EdgeProcessor;
  logcat : list log_entry
}.

Definition Process_start : Process := mkProcess None [].

(** What the Java runtime and the clock decide during one call. *)
Record JNIEnv : Type := mkJNIEnv {
  GetByteArrayElements_null : bool;   (* the input bytes could not be pinned *)
  NewByteArray_null : bool;           (* the output array could not be made *)
  elapsed_ms : Z                      (* endTime - startTime *)
}.

(** A [jbyteArray] / [jobject] result: [None] is [nullptr]. *)
Definition jbyteArray : Type := option (list byte).

Definition log (prio : priority) (tag fmt : string) (args : list log_arg) : M Process unit :=
  fun g => Ret tt (mkProcess (g_edgeProcessor g) (logcat g ++ [mkLog prio tag fmt args])).

Definition LOGD := log ANDROID_LOG_DEBUG LOG_TAG.
Definition LOGI := log ANDROID_LOG_INFO LOG_TAG.
Definition LOGE := log ANDROID_LOG_ERROR LOG_TAG.

Definition ensureEdgeProcessorInitialized : M Process unit :=
  fun g =>
    match g_edgeProcessor g with
    | None =>
        Ret tt (mkProcess (Some EdgeProcessor_new)
                  (logcat g ++ [mkLog ANDROID_LOG_DEBUG EdgeProcessor_TAG
                     "EdgeProcessor initialized with buffer reuse optimization"%string []]))
    | Some _ => Ret tt g
    end.

(** [g_edgeProcessor->f(...)]; a null pointer would be dereferenced. *)
Definition on_processor {A} (c : M EdgeProcessor A) : M Process A :=
  fun g =>
    match g_edgeProcessor g with
    | None => UB
    | Some p =>
        match c p with
        | Ret a p' => Ret a (mkProcess (Some p') (logcat g))
        | Exc e p' => Exc e (mkProcess (Some p') (logcat g))
        | UB => UB
        end
    end.

(** [try { body } catch (const cv::Exception&) {..} catch (const
    std::exception&) {..} catch (...) {..}], each handler logging under the
    name [what] and returning [nullptr]. *)
Definition try_catch (what : string) (body : M Process jbyteArray) : M Process jbyteArray :=
  fun g =>
    match body g with
    | Ret a g' => Ret a g'
    | Exc (CvException msg) g' =>
        (LOGE ("OpenCV exception in " ++ what ++ ": %s")%string [ArgStr msg] ;; ret None) g'
    | Exc (StdException msg) g' =>
        (LOGE ("Standard exception in " ++ what ++ ": %s")%string [ArgStr msg] ;; ret None) g'
    | Exc OtherException g' =>
        (LOGE ("Unknown exception in " ++ what)%string [] ;; ret None) g'
    | UB => UB
    end.

Definition getVersionString : M Process string :=
  LOGD "getVersionString called"%string [] ;;
  ret "EdgeVision Native v1.0 - OpenCV Ready"%string.

Definition processFrameCanny (cv : ImgProc) (env : JNIEnv) (inputData : list byte)
    (width height : Z) : M Process jbyteArray :=
  ensureEdgeProcessorInitialized ;;
  if GetByteArrayElements_null env then
    LOGE "Failed to get input bytes"%string [] ;;
    ret None
  else
    try_catch "processCanny"%string (
      if (width <=? 0) || (height <=? 0) then
        LOGE "Invalid dimensions: %dx%d"%string [ArgInt width; ArgInt height] ;;
        ret None
      else
        edges <- on_processor (processCanny cv inputData width height) ;;
        let resultBytes := matToByteArray edges in
        if NewByteArray_null env then
          LOGE "Failed to allocate output array"%string [] ;;
          ret None
        else
          LOGI "Canny processing: %dx%d in %lld ms, output: %zu bytes"%string
            [ArgInt width; ArgInt height; ArgInt (elapsed_ms env);
             ArgInt (Z.of_nat (length resultBytes))] ;;
          ret (Some resultBytes)).

Definition processFrameGrayscale (env : JNIEnv) (inputData : list byte)
    (width height : Z) : M Process jbyteArray :=
  ensureEdgeProcessorInitialized ;;
  if GetByteArrayElements_null env then
    LOGE "Failed to get input bytes"%string [] ;;
    ret None
  else
    try_catch "processGrayscale"%string (
      if (width <=? 0) || (height <=? 0) then
        LOGE "Invalid dimensions: %dx%d"%string [ArgInt width; ArgInt height] ;;
        ret None
      else
        grayMat <- on_processor (processGrayscale inputData width height) ;;
        let resultBytes := matToByteArray grayMat in
        if NewByteArray_null env then
          LOGE "Failed to allocate output array"%string [] ;;
          ret None
        else
          LOGI "Grayscale processing: %dx%d in %lld ms, output: %zu bytes"%string
            [ArgInt width; ArgInt height; ArgInt (elapsed_ms env);
             ArgInt (Z.of_nat (length resultBytes))] ;;
          ret (Some resultBytes)).

Definition processFrameToBitmap (env : JNIEnv) (inputData : list byte)
    (width height processingType : Z) : M Process jbyteArray :=
  LOGD "processFrameToBitmap: %dx%d, type=%d"%string
    [ArgInt width; ArgInt height; ArgInt processingType] ;;
  ret None.

(** ** Vocabulary of the statements *)

(** The matrix [create] builds when it has to: [rows*cols] fresh bytes, and
    one more allocation when there is anything to allocate. *)
Definition Mat_fresh (r c : Z) (m : Mat) : Mat :=
  if r * c =? 0 then mkMat r c c true [] (allocs m)
  else mkMat r c c true (repeat x00 (Z.to_nat (r * c))) (S (allocs m)).

(** The same header and storage with other contents. *)
Definition with_data (d : list byte) (m : Mat) : Mat :=
  mkMat (rows m) (cols m) (step m) (isContinuous m) d (allocs m).

(** A buffer after the dimension check of the processor: rebuilt when its
    size differs from [height x width], untouched otherwise. *)
Definition sized (width height : Z) (b : Mat) : Mat :=
  if dims_differ b width height then Mat_fresh height width b else b.

(** ... and after its contents were overwritten. *)
Definition buffer_after (content : list byte) (width height : Z) (b : Mat) : Mat :=
  with_data content (sized width height b).

(** A matrix header OpenCV can hand out: non-negative sizes, a continuity
    flag that is set only when the rows do follow one another, and data that
    reach the end of the last row. *)
Definition wf_Mat (m : Mat) : Prop :=
  0 <= rows m /\ 0 <= cols m /\ 0 <= step m /\
  (isContinuous m = true -> rows m <= 1 \/ step m = cols m) /\
  (0 < rows m -> (rows m - 1) * step m + cols m <= Z.of_nat (length (data m))).

(** A matrix that owns exactly its [rows * cols] bytes, as [create] makes
    them. *)
Definition dense (m : Mat) : Prop :=
  0 <= rows m /\ 0 <= cols m /\ step m = cols m /\
  Z.of_nat (length (data m)) = rows m * cols m.

(** The state every call leaves and expects: each buffer owns exactly its
    [rows * cols] bytes. *)
Definition wf_EdgeProcessor (p : EdgeProcessor) : Prop :=
  dense (grayBuffer p) /\ dense (blurredBuffer p) /\ dense (edgesBuffer p).

(** The Y plane: the first [width * height] bytes of the frame. *)
Definition Y_plane (yuvData : list byte) (width height : Z) : list byte :=
  firstn (Z.to_nat (width * height)) yuvData.

(** What OpenCV computes for a frame: the blurred Y plane, and the edge map
    of the blurred Y plane. *)
Definition blur_pixels (cv : ImgProc) (yuvData : list byte) (width height : Z) : list byte :=
  map (GaussianBlur_px cv (5, 5) 1.5%float height width (Y_plane yuvData width height))
      (seq 0 (Z.to_nat (height * width))).

Definition edge_pixels (cv : ImgProc) (threshold1 threshold2 : float) (apertureSize : Z)
    (yuvData : list byte) (width height : Z) : list byte :=
  map (Canny_px cv height width (blur_pixels cv yuvData width height)
         threshold1 threshold2 apertureSize)
      (seq 0 (Z.to_nat (height * width))).

(** The processor after [yuv420ToGray]. *)
Definition after_toGray (yuvData : list byte) (width height : Z) (p : EdgeProcessor)
    : EdgeProcessor :=
  mkEdgeProcessor (cannyThreshold1 p) (cannyThreshold2 p) (cannyApertureSize p)
    (buffer_after (Y_plane yuvData width height) width height (grayBuffer p))
    (blurredBuffer p) (edgesBuffer p)
    (if dims_differ (grayBuffer p) width height then width else lastWidth p)
    (if dims_differ (grayBuffer p) width height then height else lastHeight p).

(** The processor after [processCanny]. *)
Definition after_toEdges (cv : ImgProc) (yuvData : list byte) (width height : Z)
    (p : EdgeProcessor) : EdgeProcessor :=
  mkEdgeProcessor (cannyThreshold1 p) (cannyThreshold2 p) (cannyApertureSize p)
    (buffer_after (Y_plane yuvData width height) width height (grayBuffer p))
    (buffer_after (blur_pixels cv yuvData width height) width height (blurredBuffer p))
    (buffer_after (edge_pixels cv (cannyThreshold1 p) (cannyThreshold2 p)
                     (cannyApertureSize p) yuvData width height)
       width height (edgesBuffer p))
    (if dims_differ (grayBuffer p) width height then width else lastWidth p)
    (if dims_differ (grayBuffer p) width height then height else lastHeight p).

(** [c] keeps the invariant [Inv]: from a state in [Inv], whether it returns
    or throws, the state it leaves is in [Inv]. *)
Definition keeps {St A} (Inv : St -> Prop) (c : M St A) : Prop :=
  forall s, Inv s ->
    match c s with
    | Ret _ s' => Inv s'
    | Exc _ s' => Inv s'
    | UB => True
    end.

(** The processors a program can hold: a new one, and what any member
    function leaves of one, with any arguments, on return or on exception. *)
Inductive reachable (cv : ImgProc) : EdgeProcessor -> Prop :=
| reach_new : reachable cv EdgeProcessor_new
| reach_set p t1 t2 u p' :
    reachable cv p -> setCannyThresholds t1 t2 p = Ret u p' -> reachable cv p'
| reach_gray_ret p yuvData width height m p' :
    reachable cv p -> yuv420ToGray yuvData width height p = Ret m p' -> reachable cv p'
| reach_gray_exc p yuvData width height e p' :
    reachable cv p -> yuv420ToGray yuvData width height p = Exc e p' -> reachable cv p'
| reach_canny_ret p yuvData width height m p' :
    reachable cv p -> processCanny cv yuvData width height p = Ret m p' -> reachable cv p'
| reach_canny_exc p yuvData width height e p' :
    reachable cv p -> processCanny cv yuvData width height p = Exc e p' -> reachable cv p'.

(** *** Edge maps *)

Definition binary_byte (b : byte) : Prop := b = x00 \/ b = xff.

(** Number of edge pixels: bytes equal to 255. *)
Definition edge_count (bs : list byte) : nat :=
  length (filter (fun b => Byte.eqb b xff) bs).

(** [a <= b] on doubles. *)
Definition double_le (a b : float) : Prop := PrimFloat.leb a b = true.

(** Two properties of [cv::Canny] that the repository relies on and does not
    implement: the output is a binary edge map (each byte 0 or 255), and
    raising both hysteresis thresholds does not add edge pixels.  They are
    hypotheses of the statements that need them. *)
Definition Canny_binary (cv : ImgProc) : Prop :=
  forall r c img t1 t2 ap k, binary_byte (Canny_px cv r c img t1 t2 ap k).

Definition Canny_antitone (cv : ImgProc) : Prop :=
  forall r c img ap t1 t2 t1' t2',
    double_le t1 t1' -> double_le t2 t2' ->
    (edge_count (map (Canny_px cv r c img t1' t2' ap) (seq 0 (Z.to_nat (r * c)))) <=
     edge_count (map (Canny_px cv r c img t1 t2 ap) (seq 0 (Z.to_nat (r * c)))))%nat.

(** *** Sequences of calls on one processor *)

Inductive call : Type :=
| ToGray (yuvData : list byte) (width height : Z)
| ToEdges (yuvData : list byte) (width height : Z).

Definition do_call (cv : ImgProc) (c : call) : M EdgeProcessor Mat :=
  match c with
  | ToGray yuvData width height => yuv420ToGray yuvData width height
  | ToEdges yuvData width height => processCanny cv yuvData width height
  end.

Fixpoint run (cv : ImgProc) (cs : list call) : M EdgeProcessor unit :=
  match cs with
  | [] => ret tt
  | c :: cs' => do_call cv c ;; run cv cs'
  end.

(** Dimensions the JNI layer lets through, whose pixel count is an [int],
    on a frame that holds that many bytes. *)
Definition valid_frame (yuvData : list byte) (width height : Z) : Prop :=
  0 < width /\ 0 < height /\ width * height <= INT_MAX /\
  width * height <= Z.of_nat (length yuvData).

Definition valid_call (c : call) : Prop :=
  match c with
  | ToGray yuvData width height => valid_frame yuvData width height
  | ToEdges yuvData width height => valid_frame yuvData width height
  end.

(** A buffer before and after a call. *)
Definition reallocated (old new : Mat) : Prop := allocs new = S (allocs old).

Definition reused (old new : Mat) : Prop :=
  allocs new = allocs old /\ rows new = rows old /\ cols new = cols old /\
  length (data new) = length (data old).

(** What a call does to a buffer it works on: reallocate exactly when the
    size differs, reuse exactly when it matches, and in both cases leave
    [height x width] bytes holding [content]. *)
Definition reuse_policy (old new : Mat) (width height : Z) (content : list byte) : Prop :=
  (reallocated old new <-> dims_differ old width height = true) /\
  (reused old new <-> dims_differ old width height = false) /\
  rows new = height /\ cols new = width /\
  Z.of_nat (length (data new)) = width * height /\
  data new = content.

Definition call_policy (cv : ImgProc) (c : call) (p p' : EdgeProcessor) : Prop :=
  match c with
  | ToGray yuvData width height =>
      reuse_policy (grayBuffer p) (grayBuffer p') width height
        (Y_plane yuvData width height) /\
      blurredBuffer p' = blurredBuffer p /\ edgesBuffer p' = edgesBuffer p
  | ToEdges yuvData width height =>
      reuse_policy (grayBuffer p) (grayBuffer p') width height
        (Y_plane yuvData width height) /\
      reuse_policy (blurredBuffer p) (blurredBuffer p') width height
        (blur_pixels cv yuvData width height) /\
      reuse_policy (edgesBuffer p) (edgesBuffer p') width height
        (edge_pixels cv (cannyThreshold1 p) (cannyThreshold2 p) (cannyApertureSize p)
           yuvData width height)
  end.

(** [n] calls of [processCanny] in a row, each result serialized on return
    as the JNI layer does. *)
Fixpoint toEdges_outputs (cv : ImgProc) (yuvData : list byte) (width height : Z)
    (n : nat) : M EdgeProcessor (list (list byte)) :=
  match n with
  | O => ret []
  | S n' =>
      edges <- processCanny cv yuvData width height ;;
      let bytes := matToByteArray edges in
      rest <- toEdges_outputs cv yuvData width height n' ;;
      ret (bytes :: rest)
  end.

(** *** Rejected calls *)

(** The process once [ensureEdgeProcessorInitialized] has run. *)
Definition initialized (g : Process) : Process :=
  match ensureEdgeProcessorInitialized g with
  | Ret _ g' => g'
  | _ => g
  end.

Definition invalid_dimensions_entry (width height : Z) : log_entry :=
  mkLog ANDROID_LOG_ERROR LOG_TAG "Invalid dimensions: %dx%d"%string
    [ArgInt width; ArgInt height].

(** A call classified as invalid dimensions: [nullptr] is returned, the
    error is logged, the processor is the one it was. *)
Definition InvalidDimensions (width height : Z) (g : Process)
    : outcome Process jbyteArray :=
  Ret None (mkProcess (g_edgeProcessor (initialized g))
              (logcat (initialized g) ++ [invalid_dimensions_entry width height])).

(** *** Sample data *)

Definition jni_ok : JNIEnv := mkJNIEnv false false 7.

(** A 4x4 all-zero YUV420 frame: 16 luma bytes and 8 chroma bytes. *)
Definition frame_4x4_zero : list byte := repeat x00 24.

(** A 2x2 frame: four luma bytes, then U and V. *)
Definition frame_2x2 : list byte := [x0a; xc8; xff; x14; x80; x80].

(** A frame of one byte. *)
Definition short_frame : list byte := [x2a].

(** A 2x3 region of interest inside a 2x5 image: the rows are 5 bytes
    apart. *)
Definition roi_2x3 : Mat :=
  mkMat 2 3 5 false [x01; x02; x03; x04; x05; x06; x07; x08] 0.

Fixpoint float_of_nat (n : nat) : float :=
  match n with
  | O => 0%float
  | S n' => (float_of_nat n' + 1)%float
  end.

Definition float_of_byte (b : byte) : float := float_of_nat (N.to_nat (Byte.to_N b)).

(** A stand-in for OpenCV: the blur keeps each pixel, and a pixel is an edge
    when it is above [threshold2], or above [threshold1] next to a pixel
    above [threshold2]. *)
Definition sample_strong (img : list byte) (t : float) (k : nat) : bool :=
  PrimFloat.ltb t (float_of_byte (nth k img x00)).

Definition sample_cv : ImgProc :=
  mkImgProc
    (fun _ _ _ _ img k => nth k img x00)
    (fun _ _ img t1 t2 _ k =>
       if sample_strong img t2 k || (sample_strong img t1 k && sample_strong img t2 (S k))
       then xff else x00).

(** *** Outcomes of arbitrary calls *)

(** [c] leaves the component [f] of the state as it found it, whether it
    returns or throws. *)
Definition preserves {St A T} (f : St -> T) (c : M St A) : Prop :=
  forall s,
    match c s with
    | Ret _ s' => f s' = f s
    | Exc _ s' => f s' = f s
    | UB => True
    end.

(** The settings of the edge detector. *)
Definition parameters (p : EdgeProcessor) : float * float * Z :=
  (cannyThreshold1 p, cannyThreshold2 p, cannyApertureSize p).

(** The two buffers only [processCanny] works on. *)
Definition edge_buffers (p : EdgeProcessor) : Mat * Mat :=
  (blurredBuffer p, edgesBuffer p).

(** A buffer that holds exactly its pixels, so that serializing it gives its
    data back. *)
Definition exact_buffer (b : Mat) : Prop :=
  dense b /\ matToByteArray b = data b.

(** The recorded dimensions are those of the gray buffer. *)
Definition last_dims_current (p : EdgeProcessor) : Prop :=
  lastWidth p = cols (grayBuffer p) /\ lastHeight p = rows (grayBuffer p).

(** The requested width and height of a call. *)
Definition call_width (c : call) : Z :=
  match c with ToGray _ width _ => width | ToEdges _ width _ => width end.

Definition call_height (c : call) : Z :=
  match c with ToGray _ _ height => height | ToEdges _ _ height => height end.

(** Two images with the same size and the same pixels. *)
Definition same_pixels (m1 m2 : Mat) : Prop :=
  rows m1 = rows m2 /\ cols m1 = cols m2 /\
  forall i j, (i < Z.to_nat (rows m1))%nat -> (j < Z.to_nat (cols m1))%nat ->
    Mat_at m1 i j = Mat_at m2 i j.

(** The log entries of a successful call. *)
Definition grayscale_done_entry (env : JNIEnv) (width height : Z) : log_entry :=
  mkLog ANDROID_LOG_INFO LOG_TAG
    "Grayscale processing: %dx%d in %lld ms, output: %zu bytes"%string
    [ArgInt width; ArgInt height; ArgInt (elapsed_ms env); ArgInt (width * height)].

Definition canny_done_entry (env : JNIEnv) (width height : Z) : log_entry :=
  mkLog ANDROID_LOG_INFO LOG_TAG
    "Canny processing: %dx%d in %lld ms, output: %zu bytes"%string
    [ArgInt width; ArgInt height; ArgInt (elapsed_ms env); ArgInt (width * height)].

Definition allocation_failed_entry : log_entry :=
  mkLog ANDROID_LOG_ERROR LOG_TAG "Failed to allocate output array"%string [].

(** What every returning entry point leaves: a processor, and one more log
    line under the layer's tag, an error exactly when the result is null. *)
Definition logged_result (g : Process) (r : jbyteArray) (g' : Process) : Prop :=
  (exists p, g_edgeProcessor g' = Some p) /\
  exists e, logcat g' = logcat (initialized g) ++ [e] /\
            log_tag e = LOG_TAG /\
            (r = None <-> log_prio e = ANDROID_LOG_ERROR) /\
            (r <> None <-> log_prio e = ANDROID_LOG_INFO).

(** What an entry point may do: never let an exception through, and log as
    above when it returns. *)
Definition jni_discipline (g : Process) (o : outcome Process jbyteArray) : Prop :=
  match o with
  | Ret r g' => logged_result g r g'
  | Exc _ _ => False
  | UB => True
  end.

(** *** More sample data *)

Definition jni_no_output : JNIEnv := mkJNIEnv false true 7.

(** Another 2x2 frame. *)
Definition frame_2x2_b : list byte := [x01; x02; x03; x04; x80; x80].

(** The 2x3 image of [roi_2x3], stored without gaps. *)
Definition packed_2x3 : Mat :=
  mkMat 2 3 3 true [x01; x02; x03; x06; x07; x08] 0.

(** A processor that converted a 2x2 frame and then was asked for a
    negative width. *)
Definition processor_after_throw : EdgeProcessor :=
  mkEdgeProcessor 50.0%float 150.0%float 3 (mkMat 0 0 0 false [] 1)
    Mat_empty Mat_empty 2 2.

(** * Properties *)

(** ** Lists of bytes read by offset *)

Section ListFacts.
Context {A : Type}.

Lemma firstn_plus (a b : nat) (l : list A) :
  firstn (a + b) l = firstn a l ++ firstn b (skipn a l).
Proof.
  revert l; induction a as [|a IH]; intros l; simpl.
  - reflexivity.
  - destruct l as [|x l]; simpl.
    + now rewrite firstn_nil.
    + now rewrite IH.
Qed.

(** A window of [k] elements at offset [n], read element by element. *)
Lemma window_nth (d : A) (l : list A) (n k : nat) :
  (n + k <= length l)%nat ->
  firstn k (skipn n l) = map (fun j => nth (n + j) l d) (seq 0 k).
Proof.
  intros Hlen.
  apply nth_ext with (d := d) (d' := d).
  - rewrite length_firstn, length_skipn, length_map, length_seq. lia.
  - intros i Hi.
    rewrite length_firstn, length_skipn in Hi.
    assert (Hik : (i < k)%nat) by lia.
    rewrite nth_firstn.
    destruct (Nat.ltb_spec i k) as [_|]; [|lia].
    rewrite nth_skipn. symmetry.
    set (f := fun j => nth (n + j) l d).
    rewrite (nth_indep (map f (seq 0 k)) d (f 0%nat))
      by (rewrite length_map, length_seq; exact Hik).
    rewrite (map_nth f (seq 0 k) 0%nat i).
    now rewrite seq_nth by exact Hik.
Qed.

(** Consecutive windows of width [c] make up the prefix they cover. *)
Lemma windows_prefix (l : list A) (c r : nat) :
  flat_map (fun i => firstn c (skipn (i * c) l)) (seq 0 r) = firstn (r * c) l.
Proof.
  induction r as [|r IH].
  - reflexivity.
  - rewrite seq_S, flat_map_app, IH. simpl.
    rewrite app_nil_r.
    replace (c + r * c)%nat with (r * c + c)%nat by lia.
    now rewrite firstn_plus.
Qed.

Lemma length_flat_map_const {B : Type} (f : A -> list B) (l : list A) (c : nat) :
  (forall x, length (f x) = c) ->
  length (flat_map f l) = (length l * c)%nat.
Proof.
  intros Hf. induction l as [|x l IH]; simpl.
  - reflexivity.
  - now rewrite length_app, Hf, IH.
Qed.
End ListFacts.

(** ** Well-formed matrices *)

Lemma dense_wf (m : Mat) : dense m -> wf_Mat m.
Proof.
  unfold dense, wf_Mat. intros (Hr & Hc & Hs & Hl).
  split; [lia|]. split; [lia|]. split; [lia|]. split.
  - intros _. now right.
  - intros Hpos. nia.
Qed.

Lemma Mat_row_pixels (m : Mat) (i : nat) :
  0 <= cols m -> 0 <= step m ->
  Z.of_nat i * step m + cols m <= Z.of_nat (length (data m)) ->
  Mat_row m (Z.of_nat i) = map (Mat_at m i) (seq 0 (Z.to_nat (cols m))).
Proof.
  intros Hc Hs Hlen. unfold Mat_row, Mat_at, elemSize.
  rewrite Z.mul_1_r.
  replace (Z.to_nat (Z.of_nat i * step m)) with (i * Z.to_nat (step m))%nat by nia.
  apply window_nth. nia.
Qed.

Lemma insert_rows_spec (m : Mat) (n : nat) :
  forall (i : nat) (acc : list byte),
    insert_rows m n (Z.of_nat i) acc =
    acc ++ flat_map (fun k => Mat_row m (Z.of_nat k)) (seq i n).
Proof.
  induction n as [|n IH]; intros i acc; simpl.
  - now rewrite app_nil_r.
  - replace (Z.of_nat i + 1) with (Z.of_nat (S i)) by lia.
    rewrite IH. now rewrite <- app_assoc.
Qed.

(** The row-by-row reading of a well-formed matrix, as windows. *)
Lemma row_major_windows (m : Mat) :
  wf_Mat m ->
  row_major m = flat_map (fun k => Mat_row m (Z.of_nat k)) (seq 0 (Z.to_nat (rows m))).
Proof.
  intros (Hr & Hc & Hs & _ & Hlen). unfold row_major.
  rewrite !flat_map_concat_map. f_equal.
  apply map_ext_in. intros i Hi. apply in_seq in Hi.
  symmetry. apply Mat_row_pixels; try assumption.
  assert (0 < rows m) by lia. specialize (Hlen H). nia.
Qed.

Lemma row_major_dense (m : Mat) : dense m -> row_major m = data m.
Proof.
  intros Hd. rewrite row_major_windows by now apply dense_wf.
  destruct Hd as (Hr & Hc & Hs & Hl).
  unfold Mat_row, elemSize. rewrite Hs, Z.mul_1_r.
  rewrite flat_map_ext with
    (g := fun k => firstn (Z.to_nat (cols m)) (skipn (k * Z.to_nat (cols m)) (data m))).
  - rewrite windows_prefix. apply firstn_all2. nia.
  - intros k. do 2 f_equal. nia.
Qed.

Lemma length_row_major (m : Mat) :
  0 <= rows m -> 0 <= cols m ->
  Z.of_nat (length (row_major m)) = rows m * cols m.
Proof.
  intros Hr Hc. unfold row_major.
  rewrite length_flat_map_const with (c := Z.to_nat (cols m)).
  - rewrite length_seq. nia.
  - intros i. now rewrite length_map, length_seq.
Qed.

(** [matToByteArray] reads the rows one after the other, whichever branch
    it takes. *)
Lemma matToByteArray_reads_rows (mat : Mat) :
  wf_Mat mat -> matToByteArray mat = row_major mat.
Proof.
  intros Hwf.
  rewrite row_major_windows by assumption.
  destruct Hwf as (Hr & Hc & Hs & Hcont & Hlen).
  unfold matToByteArray. destruct (isContinuous mat) eqn:Hflag.
  - unfold total, elemSize. rewrite Z.mul_1_r.
    destruct (Hcont eq_refl) as [Hrows | Hstep].
    + assert (Hcase : rows mat = 0 \/ rows mat = 1) by lia.
      destruct Hcase as [H0 | H1].
      * rewrite H0. reflexivity.
      * rewrite H1, Z.mul_1_l. change (Z.to_nat 1) with 1%nat.
        cbn [seq flat_map]. rewrite app_nil_r.
        unfold Mat_row, elemSize. rewrite Z.mul_1_r.
        reflexivity.
    + unfold Mat_row, elemSize. rewrite Hstep, Z.mul_1_r.
      rewrite flat_map_ext with
        (g := fun k => firstn (Z.to_nat (cols mat))
                         (skipn (k * Z.to_nat (cols mat)) (data mat))).
      * rewrite windows_prefix. f_equal. nia.
      * intros k. do 2 f_equal. nia.
  - change 0 with (Z.of_nat 0). now rewrite insert_rows_spec.
Qed.

Lemma matToByteArray_dense (m : Mat) : dense m -> matToByteArray m = data m.
Proof.
  intros Hd. rewrite matToByteArray_reads_rows by now apply dense_wf.
  now apply row_major_dense.
Qed.

(** ** Integer facts *)

Lemma wrap32_small (z : Z) : - 2 ^ 31 <= z < 2 ^ 31 -> wrap32 z = z.
Proof.
  intros Hz. unfold wrap32. rewrite Z.mod_small; lia.
Qed.

(** The byte count handed to [memcpy] is [width * height] when that product
    is a non-negative [int]. *)
Lemma copy_size (width height : Z) :
  0 <= width * height <= INT_MAX ->
  to_size_t (int_mul width height) = width * height.
Proof.
  unfold INT_MAX. intros Hwh. unfold to_size_t, int_mul.
  rewrite wrap32_small by lia.
  apply Z.mod_small. lia.
Qed.

(** ** The monad, step by step *)

Lemma bind_Ret {St A B} (c : M St A) (k : A -> M St B) (s s' : St) (a : A) :
  c s = Ret a s' -> bind c k s = k a s'.
Proof. intros H. unfold bind. now rewrite H. Qed.

Lemma zoom_Ret {St T A} (proj : St -> T) (upd : T -> St -> St) (c : M T A)
    (s : St) (a : A) (t : T) :
  c (proj s) = Ret a t -> zoom proj upd c s = Ret a (upd t s).
Proof. intros H. unfold zoom. now rewrite H. Qed.

(** ** Buffers: create, copy, fill *)

Lemma dims_differ_false (b : Mat) (width height : Z) :
  dims_differ b width height = false <-> cols b = width /\ rows b = height.
Proof.
  unfold dims_differ. rewrite orb_false_iff, !negb_false_iff, !Z.eqb_eq. tauto.
Qed.

Lemma dims_differ_true (b : Mat) (width height : Z) :
  dims_differ b width height = true <-> cols b <> width \/ rows b <> height.
Proof.
  unfold dims_differ. rewrite orb_true_iff, !negb_true_iff, !Z.eqb_neq. tauto.
Qed.

Lemma dense_data_null (m : Mat) :
  dense m -> 0 < rows m -> 0 < cols m -> data_is_null m = false.
Proof.
  intros (_ & _ & _ & Hl) Hr Hc. unfold data_is_null.
  destruct (data m); [simpl in Hl; nia | reflexivity].
Qed.

Lemma Mat_create_differ (m : Mat) (width height : Z) :
  0 <= width -> 0 <= height -> dims_differ m width height = true ->
  Mat_create height width m = Ret tt (Mat_fresh height width m).
Proof.
  intros Hw Hh Hd. apply dims_differ_true in Hd. unfold Mat_create, Mat_fresh.
  replace ((rows m =? height) && (cols m =? width)) with false.
  - simpl.
    destruct (Z.ltb_spec height 0); [lia|].
    destruct (Z.ltb_spec width 0); [lia|]. simpl.
    now destruct (height * width =? 0).
  - symmetry. apply andb_false_iff. rewrite !Z.eqb_neq. tauto.
Qed.

Lemma Mat_create_negative (m : Mat) (width height : Z) :
  width < 0 \/ height < 0 -> dense m ->
  exists e, Mat_create height width m = Exc e (Mat_release m).
Proof.
  intros Hneg (Hr & Hc & _). unfold Mat_create.
  replace ((rows m =? height) && (cols m =? width)) with false.
  - simpl. replace ((height <? 0) || (width <? 0)) with true; [eauto|].
    symmetry. apply orb_true_iff. rewrite !Z.ltb_lt. tauto.
  - symmetry. apply andb_false_iff. rewrite !Z.eqb_neq. lia.
Qed.

Lemma Mat_create_noop (m : Mat) :
  dense m -> 0 < rows m -> 0 < cols m ->
  Mat_create (rows m) (cols m) m = Ret tt m.
Proof.
  intros Hd Hr Hc. unfold Mat_create.
  now rewrite !Z.eqb_refl, dense_data_null.
Qed.

Lemma Mat_memcpy_all (m : Mat) (src : list byte) (n : Z) :
  n = Z.of_nat (length (data m)) -> n <= Z.of_nat (length src) ->
  Mat_memcpy src n m = Ret tt (with_data (firstn (Z.to_nat n) src) m).
Proof.
  intros Hn Hsrc. unfold Mat_memcpy, with_data.
  destruct (Z.leb_spec n (Z.of_nat (length src))); [|lia].
  destruct (Z.leb_spec n (Z.of_nat (length (data m)))); [|lia].
  simpl. rewrite skipn_all2 by lia. now rewrite app_nil_r.
Qed.


Lemma dense_fresh (m : Mat) (width height : Z) :
  0 <= width -> 0 <= height -> dense (Mat_fresh height width m).
Proof.
  intros Hw Hh. unfold Mat_fresh, dense.
  destruct (Z.eqb_spec (height * width) 0) as [H0 | H0]; simpl.
  - lia.
  - rewrite repeat_length. nia.
Qed.

(** The header a buffer has after the dimension check: size
    [height x width], dense, whatever it was before. *)
Lemma sized_header (b : Mat) (width height : Z) :
  dense b -> 0 <= width -> 0 <= height ->
  let b' := sized width height b in
  rows b' = height /\ cols b' = width /\ step b' = width /\ dense b'.
Proof.
  intros Hd Hw Hh. unfold sized.
  destruct (dims_differ b width height) eqn:Hdiff.
  - pose proof (dense_fresh b width height Hw Hh) as Hf.
    unfold Mat_fresh in *.
    destruct (height * width =? 0); simpl; auto.
  - apply dims_differ_false in Hdiff. destruct Hdiff as [Hc Hr].
    destruct Hd as (H1 & H2 & H3 & H4). unfold dense. repeat split; lia.
Qed.

Lemma buffer_after_header (b : Mat) (content : list byte) (width height : Z) :
  dense b -> 0 <= width -> 0 <= height ->
  Z.of_nat (length content) = height * width ->
  let b' := buffer_after content width height b in
  rows b' = height /\ cols b' = width /\ step b' = width /\
  data b' = content /\ dense b'.
Proof.
  intros Hd Hw Hh Hlen.
  destruct (sized_header b width height Hd Hw Hh) as (Hr & Hc & Hs & _).
  unfold buffer_after, with_data; simpl.
  repeat split; try assumption; simpl; lia.
Qed.

(** ** What the two conversions return *)

Lemma length_Y_plane (yuvData : list byte) (width height : Z) :
  0 <= width * height <= Z.of_nat (length yuvData) ->
  Z.of_nat (length (Y_plane yuvData width height)) = height * width.
Proof.
  intros Hwh. unfold Y_plane. rewrite length_firstn. lia.
Qed.

Lemma yuv420ToGray_Ret (p : EdgeProcessor) (yuvData : list byte) (width height : Z) :
  dense (grayBuffer p) ->
  0 <= width -> 0 <= height -> width * height <= INT_MAX ->
  width * height <= Z.of_nat (length yuvData) ->
  yuv420ToGray yuvData width height p =
  Ret (grayBuffer (after_toGray yuvData width height p))
      (after_toGray yuvData width height p).
Proof.
  intros Hd Hw Hh Hint Hlen.
  assert (Hn : to_size_t (int_mul width height) = width * height)
    by (apply copy_size; nia).
  destruct (sized_header _ width height Hd Hw Hh) as (Hr & Hc & Hs & Hd').
  assert (Hsize : width * height = Z.of_nat (length (data (sized width height (grayBuffer p))))).
  { destruct Hd' as (_ & _ & _ & Hl). rewrite Hl, Hr, Hc. lia. }
  unfold yuv420ToGray. rewrite Hn.
  unfold after_toGray, buffer_after, Y_plane, sized in *.
  cbv [bind get ret on_gray zoom set_last].
  destruct (dims_differ (grayBuffer p) width height) eqn:Hdiff.
  - rewrite Mat_create_differ by assumption.
    cbn [grayBuffer set_grayBuffer cannyThreshold1 cannyThreshold2 cannyApertureSize
         blurredBuffer edgesBuffer lastWidth lastHeight].
    rewrite Mat_memcpy_all by (assumption || lia).
    reflexivity.
  - rewrite Mat_memcpy_all by (assumption || lia).
    reflexivity.
Qed.

Lemma Mat_create_same (m : Mat) (r c : Z) :
  dense m -> rows m = r -> cols m = c -> 0 < r -> 0 < c ->
  Mat_create r c m = Ret tt m.
Proof.
  intros Hd <- <- Hr Hc. now apply Mat_create_noop.
Qed.

Lemma cv_GaussianBlur_Ret (cv : ImgProc) (src dst : Mat) (ksize : Z * Z) (sigmaX : float) :
  dense dst -> rows dst = rows src -> cols dst = cols src ->
  0 < rows src -> 0 < cols src ->
  cv_GaussianBlur cv src ksize sigmaX dst =
  Ret tt (with_data
            (map (GaussianBlur_px cv ksize sigmaX (rows src) (cols src) (row_major src))
                 (seq 0 (Z.to_nat (rows src * cols src)))) dst).
Proof.
  intros Hd Hr Hc Hrp Hcp. unfold cv_GaussianBlur.
  rewrite (bind_Ret _ _ _ _ _ (Mat_create_same dst _ _ Hd Hr Hc Hrp Hcp)).
  unfold Mat_fill, with_data, total. now rewrite Hr, Hc.
Qed.

Lemma cv_Canny_Ret (cv : ImgProc) (image dst : Mat) (t1 t2 : float) (ap : Z) :
  dense dst -> rows dst = rows image -> cols dst = cols image ->
  0 < rows image -> 0 < cols image ->
  cv_Canny cv image t1 t2 ap dst =
  Ret tt (with_data
            (map (Canny_px cv (rows image) (cols image) (row_major image) t1 t2 ap)
                 (seq 0 (Z.to_nat (rows image * cols image)))) dst).
Proof.
  intros Hd Hr Hc Hrp Hcp. unfold cv_Canny.
  rewrite (bind_Ret _ _ _ _ _ (Mat_create_same dst _ _ Hd Hr Hc Hrp Hcp)).
  unfold Mat_fill, with_data, total. now rewrite Hr, Hc.
Qed.

(** The dimension check of [processCanny] on one of its buffers. *)
Lemma ensure_sized {St} (proj : St -> Mat) (upd : Mat -> St -> St)
    (s : St) (width height : Z) :
  0 <= width -> 0 <= height ->
  (forall s', upd (proj s') s' = s') ->
  (if dims_differ (proj s) width height
   then zoom proj upd (Mat_create height width)
   else ret tt) s = Ret tt (upd (sized width height (proj s)) s).
Proof.
  intros Hw Hh Hid. unfold sized.
  destruct (dims_differ (proj s) width height) eqn:Hdiff.
  - apply zoom_Ret. now apply Mat_create_differ.
  - unfold ret. now rewrite Hid.
Qed.

Lemma length_blur_pixels (cv : ImgProc) (yuvData : list byte) (width height : Z) :
  0 <= width -> 0 <= height ->
  Z.of_nat (length (blur_pixels cv yuvData width height)) = height * width.
Proof.
  intros Hw Hh. unfold blur_pixels. rewrite length_map, length_seq. nia.
Qed.

Lemma length_edge_pixels (cv : ImgProc) (t1 t2 : float) (ap : Z)
    (yuvData : list byte) (width height : Z) :
  0 <= width -> 0 <= height ->
  Z.of_nat (length (edge_pixels cv t1 t2 ap yuvData width height)) = height * width.
Proof.
  intros Hw Hh. unfold edge_pixels. rewrite length_map, length_seq. nia.
Qed.

Lemma set_blurredBuffer_id (p : EdgeProcessor) : set_blurredBuffer (blurredBuffer p) p = p.
Proof. now destruct p. Qed.

Lemma set_edgesBuffer_id (p : EdgeProcessor) : set_edgesBuffer (edgesBuffer p) p = p.
Proof. now destruct p. Qed.

Lemma processCanny_Ret (cv : ImgProc) (p : EdgeProcessor) (yuvData : list byte)
    (width height : Z) :
  wf_EdgeProcessor p ->
  0 < width -> 0 < height -> width * height <= INT_MAX ->
  width * height <= Z.of_nat (length yuvData) ->
  processCanny cv yuvData width height p =
  Ret (edgesBuffer (after_toEdges cv yuvData width height p))
      (after_toEdges cv yuvData width height p).
Proof.
  intros (Hg & Hb & He) Hw Hh Hint Hlen.
  assert (Hw0 : 0 <= width) by lia. assert (Hh0 : 0 <= height) by lia.
  pose proof (length_Y_plane yuvData width height ltac:(nia)) as HlenY.
  destruct (buffer_after_header _ _ width height Hg Hw0 Hh0 HlenY)
    as (Hgr & Hgc & Hgs & Hgd & Hgdense).
  destruct (sized_header _ width height Hb Hw0 Hh0) as (Hbr & Hbc & Hbs & Hbdense).
  destruct (sized_header _ width height He Hw0 Hh0) as (Her & Hec & Hes & Hedense).
  unfold processCanny.
  rewrite (bind_Ret _ _ _ _ _ (yuv420ToGray_Ret p yuvData width height Hg Hw0 Hh0 Hint Hlen)).
  set (p1 := after_toGray yuvData width height p).
  set (g' := grayBuffer p1) in *.
  unfold bind at 1. unfold get at 1.
  unfold on_blurred at 1.
  rewrite (bind_Ret _ _ _ _ _
             (ensure_sized blurredBuffer set_blurredBuffer p1 width height Hw0 Hh0
                set_blurredBuffer_id)).
  set (p2 := set_blurredBuffer _ p1).
  unfold bind at 1. unfold get at 1.
  unfold on_edges at 1.
  rewrite (bind_Ret _ _ _ _ _
             (ensure_sized edgesBuffer set_edgesBuffer p2 width height Hw0 Hh0
                set_edgesBuffer_id)).
  set (p3 := set_edgesBuffer _ p2).
  assert (Eg : g' = buffer_after (Y_plane yuvData width height) width height (grayBuffer p))
    by reflexivity.
  assert (Eb3 : blurredBuffer p3 = sized width height (blurredBuffer p)) by reflexivity.
  assert (Ee3 : edgesBuffer p3 = sized width height (edgesBuffer p)) by reflexivity.
  assert (Hblur := cv_GaussianBlur_Ret cv g' (blurredBuffer p3) (5, 5) 1.5%float
                     ltac:(rewrite Eb3; exact Hbdense)
                     ltac:(rewrite Eb3, Eg; lia) ltac:(rewrite Eb3, Eg; lia)
                     ltac:(rewrite Eg; lia) ltac:(rewrite Eg; lia)).
  rewrite (bind_Ret _ _ _ _ _ (zoom_Ret blurredBuffer set_blurredBuffer _ p3 _ _ Hblur)).
  set (p4 := set_blurredBuffer _ p3).
  unfold bind at 1. unfold get at 1.
  assert (Eb4 : blurredBuffer p4 =
                with_data (map (GaussianBlur_px cv (5, 5) 1.5%float (rows g') (cols g')
                                  (row_major g'))
                             (seq 0 (Z.to_nat (rows g' * cols g'))))
                          (sized width height (blurredBuffer p))) by reflexivity.
  assert (Hb4 : dense (blurredBuffer p4) /\ rows (blurredBuffer p4) = height /\
                cols (blurredBuffer p4) = width).
  { rewrite Eb4. unfold with_data, dense; cbn [rows cols step data].
    rewrite length_map, length_seq, Hbr, Hbc, Hbs, Eg, Hgr, Hgc. repeat split; nia. }
  destruct Hb4 as (Hb4d & Hb4r & Hb4c).
  assert (Ee4 : edgesBuffer p4 = sized width height (edgesBuffer p)) by reflexivity.
  assert (Hcanny := cv_Canny_Ret cv (blurredBuffer p4) (edgesBuffer p4) (cannyThreshold1 p4)
                      (cannyThreshold2 p4) (cannyApertureSize p4)
                      ltac:(rewrite Ee4; exact Hedense)
                      ltac:(rewrite Ee4; lia) ltac:(rewrite Ee4; lia)
                      ltac:(lia) ltac:(lia)).
  rewrite (bind_Ret _ _ _ _ _ (zoom_Ret edgesBuffer set_edgesBuffer _ p4 _ _ Hcanny)).
  unfold bind, get, ret.
  assert (Hb4eq : blurredBuffer p4 =
                  buffer_after (blur_pixels cv yuvData width height) width height
                    (blurredBuffer p)).
  { rewrite Eb4. unfold buffer_after, blur_pixels.
    rewrite (row_major_dense g') by (rewrite Eg; exact Hgdense).
    now rewrite Eg, Hgr, Hgc, Hgd. }
  rewrite (row_major_dense _ Hb4d), Hb4r, Hb4c, Ee4.
  replace (data (blurredBuffer p4)) with (blur_pixels cv yuvData width height)
    by (rewrite Hb4eq; reflexivity).
  match goal with
  | |- Ret _ ?s = _ =>
      assert (Hfinal : s = after_toEdges cv yuvData width height p)
  end.
  { unfold set_edgesBuffer, after_toEdges. rewrite Hb4eq. reflexivity. }
  now rewrite Hfinal.
Qed.

Lemma buffer_after_dense (b : Mat) (content : list byte) (width height : Z) :
  dense b -> 0 <= width -> 0 <= height ->
  Z.of_nat (length content) = height * width ->
  dense (buffer_after content width height b).
Proof.
  intros Hd Hw Hh Hl. now apply buffer_after_header.
Qed.

Lemma wf_after_toGray (p : EdgeProcessor) (yuvData : list byte) (width height : Z) :
  wf_EdgeProcessor p -> 0 <= width -> 0 <= height ->
  width * height <= Z.of_nat (length yuvData) ->
  wf_EdgeProcessor (after_toGray yuvData width height p).
Proof.
  intros (Hg & Hb & He) Hw Hh Hlen. unfold wf_EdgeProcessor, after_toGray.
  cbn [grayBuffer blurredBuffer edgesBuffer].
  split; [|split; assumption].
  apply buffer_after_dense; try assumption.
  apply length_Y_plane. nia.
Qed.

Lemma wf_after_toEdges (cv : ImgProc) (p : EdgeProcessor) (yuvData : list byte)
    (width height : Z) :
  wf_EdgeProcessor p -> 0 <= width -> 0 <= height ->
  width * height <= Z.of_nat (length yuvData) ->
  wf_EdgeProcessor (after_toEdges cv yuvData width height p).
Proof.
  intros (Hg & Hb & He) Hw Hh Hlen. unfold wf_EdgeProcessor, after_toEdges.
  cbn [grayBuffer blurredBuffer edgesBuffer].
  split; [|split]; apply buffer_after_dense; try assumption.
  - apply length_Y_plane. nia.
  - now apply length_blur_pixels.
  - now apply length_edge_pixels.
Qed.

(** The bytes the JNI layer gets from a buffer the processor returned. *)
Lemma matToByteArray_buffer_after (b : Mat) (content : list byte) (width height : Z) :
  dense b -> 0 <= width -> 0 <= height ->
  Z.of_nat (length content) = height * width ->
  matToByteArray (buffer_after content width height b) = content.
Proof.
  intros Hd Hw Hh Hl.
  destruct (buffer_after_header b content width height Hd Hw Hh Hl)
    as (_ & _ & _ & Hdata & Hdense).
  now rewrite matToByteArray_dense.
Qed.

(** Outside the valid inputs: a negative dimension makes [create] throw,
    and a frame shorter than [width * height] is read past its end. *)
Lemma yuv420ToGray_negative (p : EdgeProcessor) (yuvData : list byte) (width height : Z) :
  dense (grayBuffer p) -> width < 0 \/ height < 0 ->
  exists e p', yuv420ToGray yuvData width height p = Exc e p'.
Proof.
  intros Hd Hneg. pose proof Hd as (Hr & Hc & _).
  assert (Hdiff : dims_differ (grayBuffer p) width height = true)
    by (apply dims_differ_true; lia).
  destruct (Mat_create_negative _ width height Hneg Hd) as (e & Hcreate).
  unfold yuv420ToGray. cbv [bind get on_gray zoom].
  rewrite Hdiff, Hcreate. eauto.
Qed.


(** ** The invariant of the processor *)

Lemma wf_new : wf_EdgeProcessor EdgeProcessor_new.
Proof. unfold wf_EdgeProcessor, dense; simpl. lia. Qed.

Lemma keeps_ret {St A} (Inv : St -> Prop) (a : A) : keeps Inv (ret a).
Proof. intros s Hs. exact Hs. Qed.

Lemma keeps_get {St} (Inv : St -> Prop) : keeps Inv (@get St).
Proof. intros s Hs. exact Hs. Qed.

Lemma keeps_bind {St A B} (Inv : St -> Prop) (c : M St A) (k : A -> M St B) :
  keeps Inv c -> (forall a, keeps Inv (k a)) -> keeps Inv (bind c k).
Proof.
  intros Hc Hk s Hs. unfold bind. specialize (Hc s Hs).
  destruct (c s) as [a s' | e s' | ]; [now apply Hk | assumption | exact I].
Qed.

(** A read of the state may choose what runs next. *)
Lemma keeps_bind_get {St B} (Inv : St -> Prop) (k : St -> M St B) :
  (forall s, Inv s -> keeps Inv (k s)) -> keeps Inv (bind get k).
Proof.
  intros Hk s Hs. unfold bind, get. now apply Hk.
Qed.

Lemma keeps_if {St A} (Inv : St -> Prop) (b : bool) (c1 c2 : M St A) :
  keeps Inv c1 -> keeps Inv c2 -> keeps Inv (if b then c1 else c2).
Proof. now destruct b. Qed.

Lemma keeps_create (r c : Z) : keeps dense (Mat_create r c).
Proof.
  intros m Hd. unfold Mat_create.
  destruct ((rows m =? r) && (cols m =? c) && negb (data_is_null m)); [exact Hd|].
  destruct ((r <? 0) || (c <? 0)) eqn:Hneg.
  - unfold dense, Mat_release; simpl. lia.
  - apply orb_false_iff in Hneg. rewrite !Z.ltb_ge in Hneg.
    pose proof (dense_fresh m c r ltac:(lia) ltac:(lia)) as Hf.
    unfold Mat_fresh in Hf. now destruct (r * c =? 0).
Qed.

Lemma keeps_memcpy (src : list byte) (n : Z) : keeps dense (Mat_memcpy src n).
Proof.
  intros m (Hr & Hc & Hs & Hl). unfold Mat_memcpy.
  destruct (Z.leb_spec n (Z.of_nat (length src))); [|exact I].
  destruct (Z.leb_spec n (Z.of_nat (length (data m)))); [|exact I].
  cbn [andb]. unfold dense; cbn [rows cols step data].
  rewrite length_app, length_firstn, length_skipn. repeat split; lia.
Qed.

Lemma keeps_fill (px : nat -> byte) : keeps dense (Mat_fill px).
Proof.
  intros m (Hr & Hc & Hs & Hl). unfold Mat_fill, dense, total; cbn [rows cols step data].
  rewrite length_map, length_seq. repeat split; nia.
Qed.

Lemma keeps_on_gray {A} (c : M Mat A) :
  keeps dense c -> keeps wf_EdgeProcessor (on_gray c).
Proof.
  intros Hc p (Hg & Hb & He). unfold on_gray, zoom. specialize (Hc _ Hg).
  destruct (c (grayBuffer p)); try exact I; (split; [|split]); assumption.
Qed.

Lemma keeps_on_blurred {A} (c : M Mat A) :
  keeps dense c -> keeps wf_EdgeProcessor (on_blurred c).
Proof.
  intros Hc p (Hg & Hb & He). unfold on_blurred, zoom. specialize (Hc _ Hb).
  destruct (c (blurredBuffer p)); try exact I; (split; [|split]); assumption.
Qed.

Lemma keeps_on_edges {A} (c : M Mat A) :
  keeps dense c -> keeps wf_EdgeProcessor (on_edges c).
Proof.
  intros Hc p (Hg & Hb & He). unfold on_edges, zoom. specialize (Hc _ He).
  destruct (c (edgesBuffer p)); try exact I; (split; [|split]); assumption.
Qed.

Lemma keeps_setCannyThresholds (t1 t2 : float) :
  keeps wf_EdgeProcessor (setCannyThresholds t1 t2).
Proof. intros p Hp. exact Hp. Qed.

Lemma keeps_yuv420ToGray (yuvData : list byte) (width height : Z) :
  keeps wf_EdgeProcessor (yuv420ToGray yuvData width height).
Proof.
  unfold yuv420ToGray.
  apply keeps_bind_get; intros p _.
  apply keeps_bind.
  - apply keeps_if; [|apply keeps_ret].
    apply keeps_bind; [apply keeps_on_gray, keeps_create|].
    intros _ q Hq. exact Hq.
  - intros _. apply keeps_bind; [apply keeps_on_gray, keeps_memcpy|].
    intros _. apply keeps_bind_get; intros q _. apply keeps_ret.
Qed.

Lemma keeps_processCanny (cv : ImgProc) (yuvData : list byte) (width height : Z) :
  keeps wf_EdgeProcessor (processCanny cv yuvData width height).
Proof.
  unfold processCanny.
  apply keeps_bind; [apply keeps_yuv420ToGray|]. intros grayMat.
  apply keeps_bind_get; intros p _.
  apply keeps_bind;
    [apply keeps_if; [apply keeps_on_blurred, keeps_create | apply keeps_ret]|].
  intros _. apply keeps_bind_get; intros p1 _.
  apply keeps_bind;
    [apply keeps_if; [apply keeps_on_edges, keeps_create | apply keeps_ret]|].
  intros _. apply keeps_bind.
  - apply keeps_on_blurred. unfold cv_GaussianBlur.
    apply keeps_bind; [apply keeps_create | intros _; apply keeps_fill].
  - intros _. apply keeps_bind_get; intros p2 _. apply keeps_bind.
    + apply keeps_on_edges. unfold cv_Canny.
      apply keeps_bind; [apply keeps_create | intros _; apply keeps_fill].
    + intros _. apply keeps_bind_get; intros p3 _. apply keeps_ret.
Qed.

(** Every processor a program can hold is well formed. *)
Lemma reachable_wf (cv : ImgProc) (p : EdgeProcessor) :
  reachable cv p -> wf_EdgeProcessor p.
Proof.
  induction 1 as [ | p t1 t2 u p' _ IH Hcall
                   | p yuvData width height m p' _ IH Hcall
                   | p yuvData width height e p' _ IH Hcall
                   | p yuvData width height m p' _ IH Hcall
                   | p yuvData width height e p' _ IH Hcall ].
  - exact wf_new.
  - pose proof (keeps_setCannyThresholds t1 t2 p IH) as Hk. now rewrite Hcall in Hk.
  - pose proof (keeps_yuv420ToGray yuvData width height p IH) as Hk. now rewrite Hcall in Hk.
  - pose proof (keeps_yuv420ToGray yuvData width height p IH) as Hk. now rewrite Hcall in Hk.
  - pose proof (keeps_processCanny cv yuvData width height p IH) as Hk. now rewrite Hcall in Hk.
  - pose proof (keeps_processCanny cv yuvData width height p IH) as Hk. now rewrite Hcall in Hk.
Qed.

(** ** Grayscale conversion and serialization *)

(** C1.  On a processor in a well-formed state, for every width and height
    (non-negative, with a product that fits the [int] the code computes it
    in) such that width*height is at most the frame's length, yuv420ToGray
    and processGrayscale return the gray buffer with [height] rows and
    [width] columns, whose width*height bytes are the first width*height
    bytes of the frame, byte for byte. *)
Theorem toGray_copies_Y_plane (p : EdgeProcessor) (yuvData : list byte) (width height : Z) :
  wf_EdgeProcessor p ->
  0 <= width -> 0 <= height -> width * height <= INT_MAX ->
  width * height <= Z.of_nat (length yuvData) ->
  exists gray p',
    yuv420ToGray yuvData width height p = Ret gray p' /\
    processGrayscale yuvData width height p = Ret gray p' /\
    gray = grayBuffer p' /\
    rows gray = height /\ cols gray = width /\
    Z.of_nat (length (matToByteArray gray)) = width * height /\
    matToByteArray gray = firstn (Z.to_nat (width * height)) yuvData.
Proof.
  intros Hwf Hw Hh Hint Hlen.
  pose proof Hwf as (Hg & _ & _).
  pose proof (length_Y_plane yuvData width height ltac:(nia)) as HlenY.
  destruct (buffer_after_header _ _ width height Hg Hw Hh HlenY)
    as (Hr & Hc & _ & _ & _).
  exists (grayBuffer (after_toGray yuvData width height p)),
         (after_toGray yuvData width height p).
  split; [now apply yuv420ToGray_Ret|].
  split; [now apply yuv420ToGray_Ret|].
  split; [reflexivity|].
  cbn [grayBuffer after_toGray].
  rewrite matToByteArray_buffer_after by assumption.
  repeat split; try assumption. lia.
Qed.

Lemma toGray_copies_Y_plane_witness :
  exists gray p',
    yuv420ToGray frame_4x4_zero 4 4 EdgeProcessor_new = Ret gray p' /\
    processGrayscale frame_4x4_zero 4 4 EdgeProcessor_new = Ret gray p' /\
    gray = grayBuffer p' /\
    rows gray = 4 /\ cols gray = 4 /\
    Z.of_nat (length (matToByteArray gray)) = 4 * 4 /\
    matToByteArray gray = firstn (Z.to_nat (4 * 4)) frame_4x4_zero.
Proof.
  apply (toGray_copies_Y_plane EdgeProcessor_new frame_4x4_zero 4 4).
  - exact wf_new.
  - lia.
  - lia.
  - unfold INT_MAX; lia.
  - simpl; lia.
Defined.

(** C8.  For every well-formed 8-bit single-channel matrix, contiguous or
    not, matToByteArray returns the pixels in row-major order: row 0 from
    its first to its last column, then row 1, and so on; rows*cols bytes in
    all. *)
Theorem matToByteArray_row_major (mat : Mat) :
  wf_Mat mat ->
  matToByteArray mat = row_major mat /\
  Z.of_nat (length (matToByteArray mat)) = rows mat * cols mat.
Proof.
  intros Hwf. rewrite matToByteArray_reads_rows by assumption.
  split; [reflexivity|].
  destruct Hwf as (Hr & Hc & _). now apply length_row_major.
Qed.

Lemma matToByteArray_row_major_witness :
  matToByteArray roi_2x3 = row_major roi_2x3 /\
  Z.of_nat (length (matToByteArray roi_2x3)) = rows roi_2x3 * cols roi_2x3.
Proof.
  apply (matToByteArray_row_major roi_2x3).
  unfold wf_Mat; simpl.
  split; [lia|]. split; [lia|]. split; [lia|]. split.
  - intros H; discriminate H.
  - intros _; lia.
Defined.

(** C9.  For every input and process state, processFrameToBitmap returns
    null; it leaves the global processor as it was and its only trace is one
    debug line in the log. *)
Theorem processFrameToBitmap_null (env : JNIEnv) (inputData : list byte)
    (width height processingType : Z) (g : Process) :
  processFrameToBitmap env inputData width height processingType g =
  Ret None
    (mkProcess (g_edgeProcessor g)
       (logcat g ++
        [mkLog ANDROID_LOG_DEBUG LOG_TAG "processFrameToBitmap: %dx%d, type=%d"%string
           [ArgInt width; ArgInt height; ArgInt processingType]])).
Proof. reflexivity. Qed.

(** ** Reallocation *)

Lemma allocs_buffer_after (b : Mat) (content : list byte) (width height : Z) :
  0 < width -> 0 < height ->
  allocs (buffer_after content width height b) =
  if dims_differ b width height then S (allocs b) else allocs b.
Proof.
  intros Hw Hh. unfold buffer_after, with_data, sized, Mat_fresh.
  destruct (dims_differ b width height); [|reflexivity].
  destruct (Z.eqb_spec (height * width) 0); [nia | reflexivity].
Qed.

Lemma buffer_after_policy (b : Mat) (content : list byte) (width height : Z) :
  dense b -> 0 < width -> 0 < height ->
  Z.of_nat (length content) = height * width ->
  reuse_policy b (buffer_after content width height b) width height content.
Proof.
  intros Hd Hw Hh Hl.
  destruct (buffer_after_header b content width height Hd ltac:(lia) ltac:(lia) Hl)
    as (Hr & Hc & _ & Hdata & _).
  pose proof (allocs_buffer_after b content width height Hw Hh) as Ha.
  unfold reuse_policy, reallocated, reused.
  rewrite Hr, Hc, Hdata, Ha.
  destruct (dims_differ b width height) eqn:Hdiff.
  - split; [tauto|]. split; [|repeat split; lia].
    split; [intros (H & _); lia | discriminate].
  - apply dims_differ_false in Hdiff. destruct Hdiff as [Hcb Hrb].
    destruct Hd as (_ & _ & _ & Hlb).
    split; [split; [lia | discriminate]|]. split; [|repeat split; lia].
    split; [reflexivity|]. intros _. repeat split; lia.
Qed.

Lemma do_call_valid (cv : ImgProc) (c : call) (p : EdgeProcessor) :
  wf_EdgeProcessor p -> valid_call c ->
  exists out p',
    do_call cv c p = Ret out p' /\ wf_EdgeProcessor p' /\ call_policy cv c p p'.
Proof.
  intros Hwf Hv. pose proof Hwf as (Hg & Hb & He).
  destruct c as [yuvData width height | yuvData width height];
    destruct Hv as (Hw & Hh & Hint & Hlen); cbn [do_call call_policy].
  - exists (grayBuffer (after_toGray yuvData width height p)),
           (after_toGray yuvData width height p).
    split; [apply yuv420ToGray_Ret; (assumption || lia)|].
    split; [apply wf_after_toGray; (assumption || lia)|].
    cbn [after_toGray grayBuffer blurredBuffer edgesBuffer].
    split; [|split; reflexivity].
    apply buffer_after_policy; try assumption.
    apply length_Y_plane. nia.
  - exists (edgesBuffer (after_toEdges cv yuvData width height p)),
           (after_toEdges cv yuvData width height p).
    split; [apply processCanny_Ret; assumption|].
    split; [apply wf_after_toEdges; (assumption || lia)|].
    cbn [after_toEdges grayBuffer blurredBuffer edgesBuffer].
    split; [|split]; apply buffer_after_policy; try assumption.
    + apply length_Y_plane. nia.
    + apply length_blur_pixels; lia.
    + apply length_edge_pixels; lia.
Qed.

(** Valid calls always return, and leave a well-formed processor. *)
Lemma run_valid (cv : ImgProc) (cs : list call) :
  Forall valid_call cs ->
  forall p, wf_EdgeProcessor p ->
  exists p', run cv cs p = Ret tt p' /\ wf_EdgeProcessor p'.
Proof.
  induction 1 as [|c cs Hc Hcs IH]; intros p Hwf.
  - exists p. split; [reflexivity | assumption].
  - destruct (do_call_valid cv c p Hwf Hc) as (out & p1 & Hcall & Hwf1 & _).
    destruct (IH p1 Hwf1) as (p' & Hrun & Hwf').
    exists p'. split; [|assumption].
    cbn [run]. now rewrite (bind_Ret _ _ _ _ _ Hcall).
Qed.

(** C2.  After every sequence of valid calls of yuv420ToGray and
    processCanny on a new processor, a further valid call returns, and each
    buffer it works on (the gray buffer for yuv420ToGray; the gray, blurred
    and edges buffers for processCanny) is reallocated if and only if its
    current columns and rows differ from the requested width and height, is
    reused (same allocation, same size) if and only if they match, and in
    both cases ends with height rows, width columns and exactly width*height
    bytes, overwritten with the call's data; yuv420ToGray leaves the other
    two buffers untouched. *)
Theorem buffers_reallocated_iff_dims_differ (cv : ImgProc) (cs : list call) (c : call) :
  Forall valid_call cs -> valid_call c ->
  exists p out p',
    run cv cs EdgeProcessor_new = Ret tt p /\
    do_call cv c p = Ret out p' /\
    call_policy cv c p p'.
Proof.
  intros Hcs Hc.
  destruct (run_valid cv cs Hcs EdgeProcessor_new wf_new) as (p & Hrun & Hwf).
  destruct (do_call_valid cv c p Hwf Hc) as (out & p' & Hcall & _ & Hpol).
  exists p, out, p'. auto.
Qed.

Lemma valid_frame_2x2 : valid_frame frame_2x2 2 2.
Proof. unfold valid_frame, INT_MAX; simpl; lia. Defined.

Lemma valid_frame_4x4 : valid_frame frame_4x4_zero 4 4.
Proof. unfold valid_frame, INT_MAX; simpl; lia. Defined.

Lemma buffers_reallocated_iff_dims_differ_witness :
  exists p out p',
    run sample_cv [ToGray frame_2x2 2 2; ToEdges frame_4x4_zero 4 4] EdgeProcessor_new
      = Ret tt p /\
    do_call sample_cv (ToEdges frame_2x2 2 2) p = Ret out p' /\
    call_policy sample_cv (ToEdges frame_2x2 2 2) p p'.
Proof.
  apply (buffers_reallocated_iff_dims_differ sample_cv
           [ToGray frame_2x2 2 2; ToEdges frame_4x4_zero 4 4] (ToEdges frame_2x2 2 2)).
  - repeat constructor; simpl; unfold INT_MAX; lia.
  - exact valid_frame_2x2.
Defined.

(** ** The edge map *)

Lemma toEdges_bytes (cv : ImgProc) (p : EdgeProcessor) (yuvData : list byte)
    (width height : Z) :
  wf_EdgeProcessor p -> valid_frame yuvData width height ->
  processCanny cv yuvData width height p =
    Ret (edgesBuffer (after_toEdges cv yuvData width height p))
        (after_toEdges cv yuvData width height p) /\
  matToByteArray (edgesBuffer (after_toEdges cv yuvData width height p)) =
    edge_pixels cv (cannyThreshold1 p) (cannyThreshold2 p) (cannyApertureSize p)
      yuvData width height.
Proof.
  intros Hwf (Hw & Hh & Hint & Hlen).
  split; [now apply processCanny_Ret|].
  destruct Hwf as (_ & _ & He).
  cbn [after_toEdges edgesBuffer].
  apply matToByteArray_buffer_after; try assumption; try lia.
  apply length_edge_pixels; lia.
Qed.

(** C5.  Given that OpenCV's Canny writes a binary edge map, for every
    well-formed processor, every frame and every positive width and height
    the frame has the bytes for, processCanny returns a matrix of height
    rows and width columns, exactly width*height bytes, each of which is 0
    or 255. *)
Theorem toEdges_binary_map (cv : ImgProc) (p : EdgeProcessor) (yuvData : list byte)
    (width height : Z) :
  Canny_binary cv ->
  wf_EdgeProcessor p -> valid_frame yuvData width height ->
  exists edges p',
    processCanny cv yuvData width height p = Ret edges p' /\
    rows edges = height /\ cols edges = width /\
    Z.of_nat (length (matToByteArray edges)) = width * height /\
    Forall binary_byte (matToByteArray edges).
Proof.
  intros Hbin Hwf Hv.
  destruct (toEdges_bytes cv p yuvData width height Hwf Hv) as (Hret & Hbytes).
  destruct Hv as (Hw & Hh & Hint & Hlen). destruct Hwf as (_ & _ & He).
  exists (edgesBuffer (after_toEdges cv yuvData width height p)),
         (after_toEdges cv yuvData width height p).
  split; [exact Hret|]. rewrite Hbytes.
  pose proof (length_edge_pixels cv (cannyThreshold1 p) (cannyThreshold2 p)
                (cannyApertureSize p) yuvData width height ltac:(lia) ltac:(lia)) as Hl.
  destruct (buffer_after_header (edgesBuffer p) _ width height He ltac:(lia) ltac:(lia) Hl)
    as (Hr & Hc & _).
  cbn [after_toEdges edgesBuffer].
  split; [exact Hr|]. split; [exact Hc|]. split; [lia|].
  unfold edge_pixels. apply Forall_map, Forall_forall. intros k _. apply Hbin.
Qed.

Lemma sample_cv_binary : Canny_binary sample_cv.
Proof.
  intros r c img t1 t2 ap k. unfold binary_byte, sample_cv; cbn [Canny_px].
  destruct (sample_strong img t2 k || (sample_strong img t1 k && sample_strong img t2 (S k)));
    auto.
Qed.

Lemma toEdges_binary_map_witness :
  exists edges p',
    processCanny sample_cv frame_2x2 2 2 EdgeProcessor_new = Ret edges p' /\
    rows edges = 2 /\ cols edges = 2 /\
    Z.of_nat (length (matToByteArray edges)) = 2 * 2 /\
    Forall binary_byte (matToByteArray edges).
Proof.
  exact (toEdges_binary_map sample_cv EdgeProcessor_new frame_2x2 2 2
           sample_cv_binary wf_new valid_frame_2x2).
Defined.

(** C6.  For every well-formed processor, valid frame and dimensions, and
    whatever thresholds the processor holds, any number of consecutive
    processCanny calls on that processor with that frame all return the same
    bytes: the edge map of the blurred Y plane under those thresholds. *)
Theorem toEdges_repeatable (cv : ImgProc) (yuvData : list byte) (width height : Z)
    (n : nat) (p : EdgeProcessor) :
  wf_EdgeProcessor p -> valid_frame yuvData width height ->
  exists p',
    toEdges_outputs cv yuvData width height n p =
    Ret (repeat (edge_pixels cv (cannyThreshold1 p) (cannyThreshold2 p)
                   (cannyApertureSize p) yuvData width height) n) p'.
Proof.
  intros Hwf Hv. revert p Hwf.
  induction n as [|n IH]; intros p Hwf.
  - exists p. reflexivity.
  - destruct (toEdges_bytes cv p yuvData width height Hwf Hv) as (Hret & Hbytes).
    assert (Hwf' : wf_EdgeProcessor (after_toEdges cv yuvData width height p)).
    { destruct Hv as (Hw & Hh & _ & Hlen). apply wf_after_toEdges; (assumption || lia). }
    destruct (IH _ Hwf') as (p' & Hrest).
    exists p'. cbn [toEdges_outputs repeat].
    rewrite (bind_Ret _ _ _ _ _ Hret), (bind_Ret _ _ _ _ _ Hrest).
    unfold ret. now rewrite Hbytes.
Qed.

Lemma toEdges_repeatable_witness :
  exists p',
    toEdges_outputs sample_cv frame_2x2 2 2 3 EdgeProcessor_new =
    Ret (repeat (edge_pixels sample_cv (cannyThreshold1 EdgeProcessor_new)
                   (cannyThreshold2 EdgeProcessor_new)
                   (cannyApertureSize EdgeProcessor_new) frame_2x2 2 2) 3) p'.
Proof.
  exact (toEdges_repeatable sample_cv frame_2x2 2 2 3 EdgeProcessor_new
           wf_new valid_frame_2x2).
Defined.

(** C7.  Given that OpenCV's Canny keeps no more edge pixels when both of
    its thresholds are raised: on a well-formed processor and a valid frame,
    if processCanny is called, then both thresholds are raised with
    setCannyThresholds (each at least the one it replaces) and processCanny
    is called again on the same frame, the second edge map has no more
    255-valued bytes than the first. *)
Theorem raised_thresholds_no_more_edges (cv : ImgProc) (p : EdgeProcessor)
    (yuvData : list byte) (width height : Z) (threshold1 threshold2 : float) :
  Canny_antitone cv ->
  wf_EdgeProcessor p -> valid_frame yuvData width height ->
  double_le (cannyThreshold1 p) threshold1 ->
  double_le (cannyThreshold2 p) threshold2 ->
  exists edges p1 edges' p2,
    processCanny cv yuvData width height p = Ret edges p1 /\
    (setCannyThresholds threshold1 threshold2 ;;
     processCanny cv yuvData width height) p1 = Ret edges' p2 /\
    (edge_count (matToByteArray edges') <= edge_count (matToByteArray edges))%nat.
Proof.
  intros Hanti Hwf Hv Ht1 Ht2.
  destruct (toEdges_bytes cv p yuvData width height Hwf Hv) as (Hret & Hbytes).
  set (p1 := after_toEdges cv yuvData width height p) in *.
  assert (Hwf1 : wf_EdgeProcessor p1).
  { destruct Hv as (Hw & Hh & _ & Hlen). apply wf_after_toEdges; (assumption || lia). }
  set (q := mkEdgeProcessor threshold1 threshold2 (cannyApertureSize p1)
              (grayBuffer p1) (blurredBuffer p1) (edgesBuffer p1)
              (lastWidth p1) (lastHeight p1)).
  assert (Hset : setCannyThresholds threshold1 threshold2 p1 = Ret tt q) by reflexivity.
  assert (Hwfq : wf_EdgeProcessor q) by exact Hwf1.
  destruct (toEdges_bytes cv q yuvData width height Hwfq Hv) as (Hret' & Hbytes').
  exists (edgesBuffer p1), p1,
         (edgesBuffer (after_toEdges cv yuvData width height q)),
         (after_toEdges cv yuvData width height q).
  split; [exact Hret|]. split.
  - now rewrite (bind_Ret _ _ _ _ _ Hset).
  - rewrite Hbytes, Hbytes'. unfold edge_pixels. cbn [q cannyThreshold1 cannyThreshold2
      cannyApertureSize]. apply Hanti; assumption.
Qed.

(** *** The sample detector keeps no more edges under raised thresholds *)

Lemma SFle_lt_trans (a b c : spec_float) :
  SFleb a b = true -> SFltb b c = true -> SFltb a c = true.
Proof.
  unfold SFleb, SFltb.
  destruct a as [sa|sa| |sa ma ea], b as [sb|sb| |sb mb eb], c as [sc|sc| |sc mc ec];
    try (destruct sa); try (destruct sb); try (destruct sc);
    cbn [SFcompare]; try (intros; congruence); try reflexivity.
  all: destruct (Z.compare_spec ea eb), (Z.compare_spec eb ec), (Z.compare_spec ea ec);
       try lia; try (intros; congruence); subst.
  all: rewrite ?Pos.compare_cont_spec; cbn [Pos.switch_Eq];
       destruct (Pos.compare_spec ma mb), (Pos.compare_spec mb mc), (Pos.compare_spec ma mc);
       cbn [CompOpp Pos.switch_Eq]; try lia; try (intros; congruence).
Qed.

Lemma double_le_lt_trans (a b c : float) :
  double_le a b -> PrimFloat.ltb b c = true -> PrimFloat.ltb a c = true.
Proof.
  unfold double_le. rewrite leb_spec, !ltb_spec. apply SFle_lt_trans.
Qed.

Lemma sample_strong_antitone (img : list byte) (t t' : float) (k : nat) :
  double_le t t' -> sample_strong img t' k = true -> sample_strong img t k = true.
Proof.
  unfold sample_strong. intros Hle Hlt. exact (double_le_lt_trans _ _ _ Hle Hlt).
Qed.

Lemma edge_count_mono (f g : nat -> byte) (l : list nat) :
  (forall k, f k = xff -> g k = xff) ->
  (edge_count (map f l) <= edge_count (map g l))%nat.
Proof.
  intros Hfg. unfold edge_count.
  induction l as [|k l IH]; cbn [map filter length].
  - lia.
  - destruct (Byte.eqb (f k) xff) eqn:Hf.
    + apply Byte.byte_dec_bl in Hf. rewrite (Hfg k Hf). cbn [Byte.eqb length]. simpl. lia.
    + destruct (Byte.eqb (g k) xff); cbn [length]; lia.
Qed.

Lemma sample_cv_antitone : Canny_antitone sample_cv.
Proof.
  intros r c img ap t1 t2 t1' t2' H1 H2.
  apply edge_count_mono. intros k. unfold sample_cv; cbn [Canny_px].
  destruct (sample_strong img t2' k) eqn:Hs.
  - now rewrite (sample_strong_antitone img t2 t2' k H2 Hs).
  - destruct (sample_strong img t1' k) eqn:Hw; cbn [orb andb]; [|discriminate].
    destruct (sample_strong img t2' (S k)) eqn:Hn; [|discriminate].
    intros _.
    rewrite (sample_strong_antitone img t1 t1' k H1 Hw),
            (sample_strong_antitone img t2 t2' (S k) H2 Hn).
    now rewrite orb_true_r.
Qed.

Lemma raised_thresholds_no_more_edges_witness :
  exists edges p1 edges' p2,
    processCanny sample_cv frame_2x2 2 2 EdgeProcessor_new = Ret edges p1 /\
    (setCannyThresholds 100.0%float 220.0%float ;;
     processCanny sample_cv frame_2x2 2 2) p1 = Ret edges' p2 /\
    (edge_count (matToByteArray edges') <= edge_count (matToByteArray edges))%nat.
Proof.
  exact (raised_thresholds_no_more_edges sample_cv EdgeProcessor_new frame_2x2 2 2
           100.0%float 220.0%float sample_cv_antitone wf_new valid_frame_2x2
           (eq_refl true) (eq_refl true)).
Defined.

(** ** The JNI entry points *)

Lemma ensure_initialized (g : Process) :
  ensureEdgeProcessorInitialized g = Ret tt (initialized g).
Proof.
  unfold initialized, ensureEdgeProcessorInitialized.
  now destruct (g_edgeProcessor g).
Qed.

Lemma initialized_processor (g : Process) :
  exists p, g_edgeProcessor (initialized g) = Some p /\
            (forall p0, g_edgeProcessor g = Some p0 -> p = p0) /\
            (g_edgeProcessor g = None -> p = EdgeProcessor_new).
Proof.
  unfold initialized, ensureEdgeProcessorInitialized.
  destruct (g_edgeProcessor g) as [p0|] eqn:Hg.
  - exists p0. rewrite Hg. repeat split; congruence.
  - exists EdgeProcessor_new. repeat split; congruence.
Qed.

Lemma initialized_idle (g : Process) (p : EdgeProcessor) :
  g_edgeProcessor g = Some p -> initialized g = g.
Proof.
  intros Hg. unfold initialized, ensureEdgeProcessorInitialized. now rewrite Hg.
Qed.

Lemma nonpositive_test (width height : Z) :
  (width <=? 0) || (height <=? 0) = true <-> width <= 0 \/ height <= 0.
Proof. rewrite orb_true_iff, !Z.leb_le. tauto. Qed.

Lemma processFrameCanny_unpinned (cv : ImgProc) (env : JNIEnv) (inputData : list byte)
    (width height : Z) (g : Process) :
  GetByteArrayElements_null env = true ->
  exists g', processFrameCanny cv env inputData width height g = Ret None g' /\
             g_edgeProcessor g' = g_edgeProcessor (initialized g).
Proof.
  intros Hpin. unfold processFrameCanny.
  rewrite (bind_Ret _ _ _ _ _ (ensure_initialized g)), Hpin.
  eexists. split; reflexivity.
Qed.

Lemma processFrameGrayscale_unpinned (env : JNIEnv) (inputData : list byte)
    (width height : Z) (g : Process) :
  GetByteArrayElements_null env = true ->
  exists g', processFrameGrayscale env inputData width height g = Ret None g' /\
             g_edgeProcessor g' = g_edgeProcessor (initialized g).
Proof.
  intros Hpin. unfold processFrameGrayscale.
  rewrite (bind_Ret _ _ _ _ _ (ensure_initialized g)), Hpin.
  eexists. split; reflexivity.
Qed.

Lemma processFrameCanny_invalid (cv : ImgProc) (env : JNIEnv) (inputData : list byte)
    (width height : Z) (g : Process) :
  GetByteArrayElements_null env = false -> width <= 0 \/ height <= 0 ->
  processFrameCanny cv env inputData width height g = InvalidDimensions width height g.
Proof.
  intros Hpin Hdims. apply nonpositive_test in Hdims. unfold processFrameCanny.
  rewrite (bind_Ret _ _ _ _ _ (ensure_initialized g)), Hpin.
  unfold try_catch. now rewrite Hdims.
Qed.

Lemma processFrameGrayscale_invalid (env : JNIEnv) (inputData : list byte)
    (width height : Z) (g : Process) :
  GetByteArrayElements_null env = false -> width <= 0 \/ height <= 0 ->
  processFrameGrayscale env inputData width height g = InvalidDimensions width height g.
Proof.
  intros Hpin Hdims. apply nonpositive_test in Hdims. unfold processFrameGrayscale.
  rewrite (bind_Ret _ _ _ _ _ (ensure_initialized g)), Hpin.
  unfold try_catch. now rewrite Hdims.
Qed.

(** C3.  For every frame, every process state and every outcome of the JNI
    calls, if width <= 0 or height <= 0 then processFrameCanny and
    processFrameGrayscale both return null: they neither throw nor leave the
    defined behaviour, and the processor is left as it was. *)
Theorem nonpositive_dimensions_return_null (cv : ImgProc) (env : JNIEnv)
    (inputData : list byte) (width height : Z) (g : Process) :
  width <= 0 \/ height <= 0 ->
  (exists g', processFrameCanny cv env inputData width height g = Ret None g' /\
              g_edgeProcessor g' = g_edgeProcessor (initialized g)) /\
  (exists g', processFrameGrayscale env inputData width height g = Ret None g' /\
              g_edgeProcessor g' = g_edgeProcessor (initialized g)).
Proof.
  intros Hdims. destruct (GetByteArrayElements_null env) eqn:Hpin.
  - split.
    + now apply processFrameCanny_unpinned.
    + now apply processFrameGrayscale_unpinned.
  - split.
    + rewrite processFrameCanny_invalid by assumption.
      eexists. split; reflexivity.
    + rewrite processFrameGrayscale_invalid by assumption.
      eexists. split; reflexivity.
Qed.

Lemma nonpositive_dimensions_return_null_witness :
  (exists g', processFrameCanny sample_cv jni_ok frame_2x2 0 (-1) Process_start = Ret None g' /\
              g_edgeProcessor g' = g_edgeProcessor (initialized Process_start)) /\
  (exists g', processFrameGrayscale jni_ok frame_2x2 0 (-1) Process_start = Ret None g' /\
              g_edgeProcessor g' = g_edgeProcessor (initialized Process_start)).
Proof.
  apply (nonpositive_dimensions_return_null sample_cv jni_ok frame_2x2 0 (-1) Process_start).
  left. lia.
Defined.

(** Accepted dimensions never end as a rejected call: whatever the
    processor does, what is returned or logged last is something else. *)
Ltac not_invalid_dimensions :=
  let Heq := fresh "Heq" in
  intros Heq; unfold InvalidDimensions in Heq;
  try discriminate Heq;
  injection Heq as _ Heq;
  apply app_inv_head in Heq;
  discriminate Heq.

Lemma processFrameCanny_accepted (cv : ImgProc) (env : JNIEnv) (inputData : list byte)
    (width height : Z) (g : Process) :
  GetByteArrayElements_null env = false -> 0 < width -> 0 < height ->
  processFrameCanny cv env inputData width height g <> InvalidDimensions width height g.
Proof.
  intros Hpin Hw Hh. unfold processFrameCanny.
  rewrite (bind_Ret _ _ _ _ _ (ensure_initialized g)), Hpin.
  replace ((width <=? 0) || (height <=? 0)) with false
    by (symmetry; apply orb_false_iff; rewrite !Z.leb_gt; lia).
  unfold try_catch, bind, on_processor.
  destruct (g_edgeProcessor (initialized g)) as [p|]; [|discriminate].
  destruct (processCanny cv inputData width height p) as [edges p' | [msg|msg|] p' | ].
  - destruct (NewByteArray_null env); cbn; not_invalid_dimensions.
  - cbn; not_invalid_dimensions.
  - cbn; not_invalid_dimensions.
  - cbn; not_invalid_dimensions.
  - discriminate.
Qed.

Lemma processFrameGrayscale_accepted (env : JNIEnv) (inputData : list byte)
    (width height : Z) (g : Process) :
  GetByteArrayElements_null env = false -> 0 < width -> 0 < height ->
  processFrameGrayscale env inputData width height g <> InvalidDimensions width height g.
Proof.
  intros Hpin Hw Hh. unfold processFrameGrayscale.
  rewrite (bind_Ret _ _ _ _ _ (ensure_initialized g)), Hpin.
  replace ((width <=? 0) || (height <=? 0)) with false
    by (symmetry; apply orb_false_iff; rewrite !Z.leb_gt; lia).
  unfold try_catch, bind, on_processor.
  destruct (g_edgeProcessor (initialized g)) as [p|]; [|discriminate].
  destruct (processGrayscale inputData width height p) as [gray p' | [msg|msg|] p' | ].
  - destruct (NewByteArray_null env); cbn; not_invalid_dimensions.
  - cbn; not_invalid_dimensions.
  - cbn; not_invalid_dimensions.
  - cbn; not_invalid_dimensions.
  - discriminate.
Qed.

(** A valid call through the JNI layer: the bytes of the core's result come
    back, and the process holds the processor the core left. *)
Lemma processFrameGrayscale_valid (env : JNIEnv) (inputData : list byte)
    (width height : Z) (g : Process) (p : EdgeProcessor) :
  GetByteArrayElements_null env = false -> NewByteArray_null env = false ->
  g_edgeProcessor (initialized g) = Some p -> wf_EdgeProcessor p ->
  valid_frame inputData width height ->
  exists g',
    processFrameGrayscale env inputData width height g
      = Ret (Some (Y_plane inputData width height)) g' /\
    g_edgeProcessor g' = Some (after_toGray inputData width height p).
Proof.
  intros Hpin Hnew Hp Hwf (Hw & Hh & Hint & Hlen). pose proof Hwf as (Hg & _ & _).
  unfold processFrameGrayscale.
  rewrite (bind_Ret _ _ _ _ _ (ensure_initialized g)), Hpin.
  replace ((width <=? 0) || (height <=? 0)) with false
    by (symmetry; apply orb_false_iff; rewrite !Z.leb_gt; lia).
  unfold try_catch, bind, on_processor, processGrayscale.
  rewrite Hp, yuv420ToGray_Ret, Hnew by (assumption || lia).
  cbn [after_toGray grayBuffer].
  rewrite matToByteArray_buffer_after
    by (try assumption; try lia; apply length_Y_plane; nia).
  eexists. split; reflexivity.
Qed.

Lemma processFrameCanny_valid (cv : ImgProc) (env : JNIEnv) (inputData : list byte)
    (width height : Z) (g : Process) (p : EdgeProcessor) :
  GetByteArrayElements_null env = false -> NewByteArray_null env = false ->
  g_edgeProcessor (initialized g) = Some p -> wf_EdgeProcessor p ->
  valid_frame inputData width height ->
  exists g',
    processFrameCanny cv env inputData width height g
      = Ret (Some (edge_pixels cv (cannyThreshold1 p) (cannyThreshold2 p)
                     (cannyApertureSize p) inputData width height)) g' /\
    g_edgeProcessor g' = Some (after_toEdges cv inputData width height p).
Proof.
  intros Hpin Hnew Hp Hwf Hv.
  destruct (toEdges_bytes cv p inputData width height Hwf Hv) as (Hret & Hbytes).
  destruct Hv as (Hw & Hh & Hint & Hlen).
  unfold processFrameCanny.
  rewrite (bind_Ret _ _ _ _ _ (ensure_initialized g)), Hpin.
  replace ((width <=? 0) || (height <=? 0)) with false
    by (symmetry; apply orb_false_iff; rewrite !Z.leb_gt; lia).
  unfold try_catch, bind, on_processor.
  rewrite Hp, Hret, Hnew, Hbytes.
  eexists. split; reflexivity.
Qed.

(** After a rejected call the processor is still usable: a valid call on
    the process the rejection left returns its frame's Y plane. *)
Lemma usable_after_rejection (env : JNIEnv) (inputData : list byte)
    (w h width height : Z) (g g1 : Process) (p : EdgeProcessor) :
  InvalidDimensions w h g = Ret None g1 ->
  g_edgeProcessor (initialized g) = Some p -> wf_EdgeProcessor p ->
  GetByteArrayElements_null env = false -> NewByteArray_null env = false ->
  valid_frame inputData width height ->
  exists g2,
    processFrameGrayscale env inputData width height g1
      = Ret (Some (Y_plane inputData width height)) g2.
Proof.
  intros Hrej Hp Hwf Hpin Hnew Hv.
  unfold InvalidDimensions in Hrej. injection Hrej as Hg1.
  assert (H1 : g_edgeProcessor g1 = Some p) by (subst g1; exact Hp).
  assert (Hp1 : g_edgeProcessor (initialized g1) = Some p)
    by now rewrite (initialized_idle g1 p H1).
  destruct (processFrameGrayscale_valid env inputData width height g1 p Hpin Hnew Hp1 Hwf Hv)
    as (g2 & Hcall & _).
  eauto.
Qed.

(** C4, as the code has it.  When the input bytes could be obtained, a call
    of processFrameCanny or processFrameGrayscale is classified as invalid
    dimensions (null returned, the "Invalid dimensions" error logged, the
    processor left as it was) exactly when width <= 0 or height <= 0,
    whatever the length of the frame; after such a call the process still
    holds a processor: the one it had, or a new one if it had none. *)
Theorem InvalidDimensions_iff_nonpositive (cv : ImgProc) (env : JNIEnv)
    (inputData : list byte) (width height : Z) (g : Process) :
  GetByteArrayElements_null env = false ->
  (processFrameCanny cv env inputData width height g = InvalidDimensions width height g
   <-> width <= 0 \/ height <= 0) /\
  (processFrameGrayscale env inputData width height g = InvalidDimensions width height g
   <-> width <= 0 \/ height <= 0) /\
  (exists p, g_edgeProcessor (initialized g) = Some p /\
             (forall p0, g_edgeProcessor g = Some p0 -> p = p0) /\
             (g_edgeProcessor g = None -> p = EdgeProcessor_new)).
Proof.
  intros Hpin. split; [|split].
  - split.
    + intros Heq. destruct (Z.leb_spec width 0); [now left|].
      destruct (Z.leb_spec height 0); [now right|].
      exfalso. revert Heq. now apply processFrameCanny_accepted.
    + now apply processFrameCanny_invalid.
  - split.
    + intros Heq. destruct (Z.leb_spec width 0); [now left|].
      destruct (Z.leb_spec height 0); [now right|].
      exfalso. revert Heq. now apply processFrameGrayscale_accepted.
    + now apply processFrameGrayscale_invalid.
  - apply initialized_processor.
Qed.

Lemma InvalidDimensions_iff_nonpositive_witness :
  (processFrameCanny sample_cv jni_ok short_frame 0 (-1) Process_start
     = InvalidDimensions 0 (-1) Process_start
   <-> 0 <= 0 \/ -1 <= 0) /\
  (processFrameGrayscale jni_ok short_frame 0 (-1) Process_start
     = InvalidDimensions 0 (-1) Process_start
   <-> 0 <= 0 \/ -1 <= 0) /\
  (exists p, g_edgeProcessor (initialized Process_start) = Some p /\
             (forall p0, g_edgeProcessor Process_start = Some p0 -> p = p0) /\
             (g_edgeProcessor Process_start = None -> p = EdgeProcessor_new)).
Proof.
  apply (InvalidDimensions_iff_nonpositive sample_cv jni_ok short_frame 0 (-1) Process_start).
  reflexivity.
Defined.

(** C4, as stated, fails: a one-byte frame with width 2 and height 2 is too
    short for its dimensions, yet neither entry point classifies the call as
    invalid dimensions; the four-byte copy runs and reads past the frame. *)
Lemma short_frame_not_rejected :
  Z.of_nat (length short_frame) < 2 * 2 /\
  processFrameGrayscale jni_ok short_frame 2 2 Process_start = UB /\
  processFrameCanny sample_cv jni_ok short_frame 2 2 Process_start = UB /\
  processFrameGrayscale jni_ok short_frame 2 2 Process_start
    <> InvalidDimensions 2 2 Process_start /\
  processFrameCanny sample_cv jni_ok short_frame 2 2 Process_start
    <> InvalidDimensions 2 2 Process_start.
Proof.
  split; [simpl; lia|].
  assert (Hg : processFrameGrayscale jni_ok short_frame 2 2 Process_start = UB)
    by (vm_compute; reflexivity).
  assert (Hc : processFrameCanny sample_cv jni_ok short_frame 2 2 Process_start = UB)
    by (vm_compute; reflexivity).
  rewrite Hg, Hc. repeat split; discriminate.
Qed.

(** C10.  A new processor has thresholds 50.0 and 150.0, aperture 3 and
    last-seen dimensions 0 x 0; on a valid frame its first processCanny
    returns the edge map computed with thresholds 50.0 and 150.0 and
    aperture 3 and allocates each of its three buffers, and its first
    yuv420ToGray allocates the gray buffer. *)
Theorem new_processor_defaults (cv : ImgProc) (yuvData : list byte) (width height : Z) :
  valid_frame yuvData width height ->
  cannyThreshold1 EdgeProcessor_new = 50.0%float /\
  cannyThreshold2 EdgeProcessor_new = 150.0%float /\
  cannyApertureSize EdgeProcessor_new = 3 /\
  lastWidth EdgeProcessor_new = 0 /\ lastHeight EdgeProcessor_new = 0 /\
  (exists edges p',
     processCanny cv yuvData width height EdgeProcessor_new = Ret edges p' /\
     matToByteArray edges = edge_pixels cv 50.0%float 150.0%float 3 yuvData width height /\
     reallocated (grayBuffer EdgeProcessor_new) (grayBuffer p') /\
     reallocated (blurredBuffer EdgeProcessor_new) (blurredBuffer p') /\
     reallocated (edgesBuffer EdgeProcessor_new) (edgesBuffer p')) /\
  (exists gray p',
     yuv420ToGray yuvData width height EdgeProcessor_new = Ret gray p' /\
     reallocated (grayBuffer EdgeProcessor_new) (grayBuffer p')).
Proof.
  intros Hv. do 5 (split; [reflexivity|]).
  destruct (toEdges_bytes cv EdgeProcessor_new yuvData width height wf_new Hv)
    as (Hret & Hbytes).
  destruct Hv as (Hw & Hh & Hint & Hlen).
  assert (Hfirst : dims_differ Mat_empty width height = true).
  { apply dims_differ_true. simpl. lia. }
  assert (Halloc : forall content,
             reallocated Mat_empty (buffer_after content width height Mat_empty)).
  { intros content. unfold reallocated.
    now rewrite allocs_buffer_after, Hfirst by assumption. }
  split.
  - exists (edgesBuffer (after_toEdges cv yuvData width height EdgeProcessor_new)),
           (after_toEdges cv yuvData width height EdgeProcessor_new).
    split; [exact Hret|]. split; [exact Hbytes|].
    repeat split; apply Halloc.
  - exists (grayBuffer (after_toGray yuvData width height EdgeProcessor_new)),
           (after_toGray yuvData width height EdgeProcessor_new).
    split; [|apply Halloc].
    apply yuv420ToGray_Ret; try lia. apply wf_new.
Qed.

Lemma new_processor_defaults_witness :
  cannyThreshold1 EdgeProcessor_new = 50.0%float /\
  cannyThreshold2 EdgeProcessor_new = 150.0%float /\
  cannyApertureSize EdgeProcessor_new = 3 /\
  lastWidth EdgeProcessor_new = 0 /\ lastHeight EdgeProcessor_new = 0 /\
  (exists edges p',
     processCanny sample_cv frame_4x4_zero 4 4 EdgeProcessor_new = Ret edges p' /\
     matToByteArray edges = edge_pixels sample_cv 50.0%float 150.0%float 3 frame_4x4_zero 4 4 /\
     reallocated (grayBuffer EdgeProcessor_new) (grayBuffer p') /\
     reallocated (blurredBuffer EdgeProcessor_new) (blurredBuffer p') /\
     reallocated (edgesBuffer EdgeProcessor_new) (edgesBuffer p')) /\
  (exists gray p',
     yuv420ToGray frame_4x4_zero 4 4 EdgeProcessor_new = Ret gray p' /\
     reallocated (grayBuffer EdgeProcessor_new) (grayBuffer p')).
Proof.
  exact (new_processor_defaults sample_cv frame_4x4_zero 4 4 valid_frame_4x4).
Defined.

(** * Further properties *)

(** ** What a call that returns has done *)

Lemma Mat_create_Ret (m m' : Mat) (r c : Z) (u : unit) :
  dense m -> Mat_create r c m = Ret u m' ->
  dense m' /\ rows m' = r /\ cols m' = c.
Proof.
  intros Hd. unfold Mat_create.
  destruct ((rows m =? r) && (cols m =? c) && negb (data_is_null m)) eqn:Hsame.
  - intros Heq. injection Heq as _ <-.
    apply andb_true_iff in Hsame. destruct Hsame as [Hsame _].
    apply andb_true_iff in Hsame. rewrite !Z.eqb_eq in Hsame. tauto.
  - destruct ((r <? 0) || (c <? 0)) eqn:Hneg; [discriminate|].
    apply orb_false_iff in Hneg. rewrite !Z.ltb_ge in Hneg.
    pose proof (dense_fresh m c r ltac:(lia) ltac:(lia)) as Hf.
    unfold Mat_fresh in Hf.
    destruct (r * c =? 0); intros Heq; injection Heq as _ <-;
      (split; [exact Hf | split; reflexivity]).
Qed.

Lemma Mat_memcpy_Ret (m m' : Mat) (src : list byte) (n : Z) (u : unit) :
  dense m -> Mat_memcpy src n m = Ret u m' ->
  dense m' /\ rows m' = rows m /\ cols m' = cols m /\ allocs m' = allocs m.
Proof.
  intros Hd Hcall. pose proof (keeps_memcpy src n m Hd) as Hk.
  rewrite Hcall in Hk. split; [exact Hk|].
  unfold Mat_memcpy in Hcall.
  destruct ((n <=? Z.of_nat (length src)) && (n <=? Z.of_nat (length (data m))));
    [|discriminate].
  injection Hcall as _ <-. repeat split.
Qed.

(** A destination that already has the source's size is filled where it
    is. *)
Lemma Mat_create_sized (m : Mat) (r c : Z) :
  dense m -> rows m = r -> cols m = c ->
  exists m', Mat_create r c m = Ret tt m' /\
             dense m' /\ rows m' = r /\ cols m' = c /\ allocs m' = allocs m.
Proof.
  intros Hd Hr Hc. pose proof Hd as (H0r & H0c & Hs & Hl). unfold Mat_create.
  rewrite <- Hr, <- Hc, !Z.eqb_refl. cbn [andb].
  destruct (data_is_null m) eqn:Hnull.
  - cbn [negb].
    destruct (Z.ltb_spec (rows m) 0) as [Hlt|_]; [lia|].
    destruct (Z.ltb_spec (cols m) 0) as [Hlt|_]; [lia|]. cbn [orb].
    assert (Hzero : rows m * cols m = 0).
    { unfold data_is_null in Hnull. destruct (data m); [simpl in Hl; lia | discriminate]. }
    rewrite Hzero. cbn [Z.eqb]. eexists. split; [reflexivity|].
    unfold dense; cbn [rows cols step data allocs length]. repeat split; lia.
  - cbn [negb]. exists m. repeat split; assumption.
Qed.

Lemma filled_after_create (px : nat -> byte) (dst : Mat) (r c : Z) :
  dense dst -> rows dst = r -> cols dst = c ->
  exists dst', (Mat_create r c ;; Mat_fill px) dst = Ret tt dst' /\
               dense dst' /\ rows dst' = r /\ cols dst' = c /\
               allocs dst' = allocs dst.
Proof.
  intros Hd Hr Hc.
  destruct (Mat_create_sized dst r c Hd Hr Hc) as (m & Hcreate & Hm & Hmr & Hmc & Hma).
  rewrite (bind_Ret _ _ _ _ _ Hcreate).
  pose proof (keeps_fill px m Hm) as Hk. unfold Mat_fill in *.
  eexists. split; [reflexivity|]. split; [exact Hk|].
  cbn [rows cols allocs]. repeat split; assumption.
Qed.

Lemma yuv420ToGray_Ret_inv (p p' : EdgeProcessor) (yuvData : list byte)
    (width height : Z) (gray : Mat) :
  dense (grayBuffer p) ->
  yuv420ToGray yuvData width height p = Ret gray p' ->
  gray = grayBuffer p' /\ dense gray /\ rows gray = height /\ cols gray = width /\
  edge_buffers p' = edge_buffers p /\ parameters p' = parameters p /\
  lastWidth p' = (if dims_differ (grayBuffer p) width height then width else lastWidth p) /\
  lastHeight p' = (if dims_differ (grayBuffer p) width height then height else lastHeight p).
Proof.
  intros Hd. unfold yuv420ToGray. cbv [bind get ret on_gray zoom set_last].
  destruct (dims_differ (grayBuffer p) width height) eqn:Hdiff.
  - destruct (Mat_create height width (grayBuffer p)) as [u m | | ] eqn:Hcreate;
      try discriminate.
    destruct (Mat_create_Ret _ _ _ _ _ Hd Hcreate) as (Hm & Hmr & Hmc).
    cbn [grayBuffer set_grayBuffer].
    destruct (Mat_memcpy yuvData (to_size_t (int_mul width height)) m)
      as [u' m' | | ] eqn:Hcopy; try discriminate.
    destruct (Mat_memcpy_Ret _ _ _ _ _ Hm Hcopy) as (Hm' & Hr' & Hc' & _).
    intros Heq. injection Heq as <- <-. cbn.
    split; [reflexivity|]. split; [exact Hm'|].
    split; [congruence|]. split; [congruence|]. repeat split.
  - apply dims_differ_false in Hdiff. destruct Hdiff as [Hc Hr].
    destruct (Mat_memcpy yuvData (to_size_t (int_mul width height)) (grayBuffer p))
      as [u' m' | | ] eqn:Hcopy; try discriminate.
    destruct (Mat_memcpy_Ret _ _ _ _ _ Hd Hcopy) as (Hm' & Hr' & Hc' & _).
    intros Heq. injection Heq as <- <-. cbn.
    split; [reflexivity|]. split; [exact Hm'|].
    split; [congruence|]. split; [congruence|]. repeat split.
Qed.

Lemma processCanny_Ret_inv (cv : ImgProc) (p p' : EdgeProcessor) (yuvData : list byte)
    (width height : Z) (edges : Mat) :
  wf_EdgeProcessor p ->
  processCanny cv yuvData width height p = Ret edges p' ->
  edges = edgesBuffer p' /\
  (dense (grayBuffer p') /\ rows (grayBuffer p') = height /\ cols (grayBuffer p') = width) /\
  (dense (blurredBuffer p') /\ rows (blurredBuffer p') = height /\
   cols (blurredBuffer p') = width) /\
  (dense edges /\ rows edges = height /\ cols edges = width) /\
  parameters p' = parameters p /\
  lastWidth p' = (if dims_differ (grayBuffer p) width height then width else lastWidth p) /\
  lastHeight p' = (if dims_differ (grayBuffer p) width height then height else lastHeight p).
Proof.
  intros (Hg & Hb & He). unfold processCanny. unfold bind at 1.
  destruct (yuv420ToGray yuvData width height p) as [gray p1 | | ] eqn:Hgray;
    try discriminate.
  destruct (yuv420ToGray_Ret_inv p p1 yuvData width height gray Hg Hgray)
    as (Egray & Hgd & Hgr & Hgc & Hbufs & Hpar & Hlw & Hlh).
  unfold edge_buffers in Hbufs. injection Hbufs as Hb1 He1.
  assert (Hw0 : 0 <= width) by (destruct Hgd as (_ & H & _); lia).
  assert (Hh0 : 0 <= height) by (destruct Hgd as (H & _); lia).
  unfold bind at 1. unfold get at 1. unfold on_blurred at 1.
  rewrite (bind_Ret _ _ _ _ _
             (ensure_sized blurredBuffer set_blurredBuffer p1 width height Hw0 Hh0
                set_blurredBuffer_id)).
  set (p2 := set_blurredBuffer _ p1).
  unfold bind at 1. unfold get at 1. unfold on_edges at 1.
  rewrite (bind_Ret _ _ _ _ _
             (ensure_sized edgesBuffer set_edgesBuffer p2 width height Hw0 Hh0
                set_edgesBuffer_id)).
  set (p3 := set_edgesBuffer _ p2).
  assert (Eb3 : blurredBuffer p3 = sized width height (blurredBuffer p))
    by (rewrite <- Hb1; reflexivity).
  assert (Ee3 : edgesBuffer p3 = sized width height (edgesBuffer p))
    by (rewrite <- He1; reflexivity).
  destruct (sized_header _ width height Hb Hw0 Hh0) as (Hbr & Hbc & _ & Hbd).
  destruct (sized_header _ width height He Hw0 Hh0) as (Her & Hec & _ & Hed).
  destruct (filled_after_create
              (GaussianBlur_px cv (5, 5) 1.5%float (rows gray) (cols gray) (row_major gray))
              (blurredBuffer p3) (rows gray) (cols gray))
    as (b' & Hblur & Hb'd & Hb'r & Hb'c & _);
    [rewrite Eb3; exact Hbd | rewrite Eb3; lia | rewrite Eb3; lia |].
  fold (cv_GaussianBlur cv gray (5, 5) 1.5%float) in Hblur.
  rewrite (bind_Ret _ _ _ _ _ (zoom_Ret blurredBuffer set_blurredBuffer _ p3 _ _ Hblur)).
  set (p4 := set_blurredBuffer b' p3).
  unfold bind at 1. unfold get at 1.
  assert (Eb4 : blurredBuffer p4 = b') by reflexivity.
  assert (Ee4 : edgesBuffer p4 = sized width height (edgesBuffer p)) by exact Ee3.
  destruct (filled_after_create
              (Canny_px cv (rows b') (cols b') (row_major b') (cannyThreshold1 p4)
                 (cannyThreshold2 p4) (cannyApertureSize p4))
              (edgesBuffer p4) (rows b') (cols b'))
    as (e' & Hcanny & He'd & He'r & He'c & _);
    [rewrite Ee4; exact Hed | rewrite Ee4; lia | rewrite Ee4; lia |].
  fold (cv_Canny cv b' (cannyThreshold1 p4) (cannyThreshold2 p4) (cannyApertureSize p4))
    in Hcanny.
  rewrite Eb4.
  rewrite (bind_Ret _ _ _ _ _ (zoom_Ret edgesBuffer set_edgesBuffer _ p4 _ _ Hcanny)).
  unfold bind, get, ret. intros Heq. injection Heq as <- <-.
  cbn [edgesBuffer set_edgesBuffer grayBuffer blurredBuffer lastWidth lastHeight].
  split; [reflexivity|].
  split; [subst p4 p3 p2; cbn; rewrite <- Egray; auto|].
  split; [subst p4 p3 p2; cbn; split; [exact Hb'd | split; lia]|].
  split; [split; [exact He'd | split; lia]|].
  split; [exact Hpar|]. split; assumption.
Qed.



(** X1.  Whatever member functions were called on a processor since it was
    constructed, with whatever arguments, and whether they returned or
    threw: each of its three buffers has non-negative sizes, rows that
    follow one another, exactly rows*cols bytes of data, and serializes with
    matToByteArray to exactly those bytes. *)
Theorem reachable_buffers_exact (cv : ImgProc) (p : EdgeProcessor) :
  reachable cv p ->
  exact_buffer (grayBuffer p) /\ exact_buffer (blurredBuffer p) /\
  exact_buffer (edgesBuffer p).
Proof.
  intros Hreach. destruct (reachable_wf cv p Hreach) as (Hg & Hb & He).
  unfold exact_buffer.
  split; [|split]; (split; [assumption | now apply matToByteArray_dense]).
Qed.

Lemma processor_after_throw_reachable : reachable sample_cv processor_after_throw.
Proof.
  eapply (reach_canny_exc sample_cv _ frame_2x2 (-1) 2).
  - eapply (reach_gray_ret sample_cv _ frame_2x2 2 2).
    + apply reach_new.
    + reflexivity.
  - reflexivity.
Defined.

Lemma reachable_buffers_exact_witness :
  exact_buffer (grayBuffer processor_after_throw) /\
  exact_buffer (blurredBuffer processor_after_throw) /\
  exact_buffer (edgesBuffer processor_after_throw).
Proof.
  exact (reachable_buffers_exact sample_cv processor_after_throw
           processor_after_throw_reachable).
Defined.

(** X2.  On a well-formed processor, whenever yuv420ToGray or processCanny
    returns, with any arguments at all, the matrix it returns has exactly
    the requested number of rows and columns, these are not negative, and
    its serialization has exactly width*height bytes: no call returns a
    matrix of another size. *)
Theorem returned_matrix_fits_request (cv : ImgProc) (c : call) (p p' : EdgeProcessor)
    (out : Mat) :
  wf_EdgeProcessor p -> do_call cv c p = Ret out p' ->
  rows out = call_height c /\ cols out = call_width c /\
  0 <= call_width c /\ 0 <= call_height c /\
  Z.of_nat (length (matToByteArray out)) = call_width c * call_height c /\
  wf_EdgeProcessor p'.
Proof.
  intros Hwf Hcall.
  assert (Hout : dense out /\ rows out = call_height c /\ cols out = call_width c /\
                 wf_EdgeProcessor p').
  { destruct c as [yuvData width height | yuvData width height];
      cbn [do_call call_width call_height] in *.
    - pose proof (keeps_yuv420ToGray yuvData width height p Hwf) as Hk.
      rewrite Hcall in Hk. destruct Hwf as (Hg & _).
      destruct (yuv420ToGray_Ret_inv p p' yuvData width height out Hg Hcall)
        as (_ & Hd & Hr & Hc & _). auto.
    - pose proof (keeps_processCanny cv yuvData width height p Hwf) as Hk.
      rewrite Hcall in Hk.
      destruct (processCanny_Ret_inv cv p p' yuvData width height out Hwf Hcall)
        as (_ & _ & _ & (Hd & Hr & Hc) & _). auto. }
  destruct Hout as (Hd & Hr & Hc & Hwf').
  rewrite (matToByteArray_dense out Hd).
  destruct Hd as (H0r & H0c & _ & Hlen).
  split; [exact Hr|]. split; [exact Hc|]. split; [lia|]. split; [lia|].
  split; [lia | exact Hwf'].
Qed.

Lemma returned_matrix_fits_request_witness :
  rows (edgesBuffer (after_toEdges sample_cv frame_2x2 2 2 EdgeProcessor_new)) = 2 /\
  cols (edgesBuffer (after_toEdges sample_cv frame_2x2 2 2 EdgeProcessor_new)) = 2 /\
  0 <= 2 /\ 0 <= 2 /\
  Z.of_nat (length (matToByteArray
     (edgesBuffer (after_toEdges sample_cv frame_2x2 2 2 EdgeProcessor_new)))) = 2 * 2 /\
  wf_EdgeProcessor (after_toEdges sample_cv frame_2x2 2 2 EdgeProcessor_new).
Proof.
  apply (returned_matrix_fits_request sample_cv (ToEdges frame_2x2 2 2) EdgeProcessor_new).
  - exact wf_new.
  - exact (processCanny_Ret sample_cv EdgeProcessor_new frame_2x2 2 2 wf_new
             ltac:(lia) ltac:(lia) ltac:(unfold INT_MAX; lia) ltac:(simpl; lia)).
Defined.





(** ** What calls leave untouched *)

Lemma preserves_ret {St A T} (f : St -> T) (a : A) : preserves f (ret a).
Proof. intros s. reflexivity. Qed.

Lemma preserves_bind {St A B T} (f : St -> T) (c : M St A) (k : A -> M St B) :
  preserves f c -> (forall a, preserves f (k a)) -> preserves f (bind c k).
Proof.
  intros Hc Hk s. unfold bind. specialize (Hc s).
  destruct (c s) as [a s' | e s' | ]; [|assumption|exact I].
  specialize (Hk a s'). destruct (k a s'); try exact I; congruence.
Qed.

Lemma preserves_bind_get {St B T} (f : St -> T) (k : St -> M St B) :
  (forall s, preserves f (k s)) -> preserves f (bind get k).
Proof. intros Hk s. unfold bind, get. apply Hk. Qed.

Lemma preserves_if {St A T} (f : St -> T) (b : bool) (c1 c2 : M St A) :
  preserves f c1 -> preserves f c2 -> preserves f (if b then c1 else c2).
Proof. now destruct b. Qed.

Lemma preserves_zoom {St U A T} (f : St -> T) (proj : St -> U) (upd : U -> St -> St)
    (c : M U A) :
  (forall u s, f (upd u s) = f s) -> preserves f (zoom proj upd c).
Proof.
  intros Hupd s. unfold zoom. destruct (c (proj s)); try exact I; apply Hupd.
Qed.

Section Untouched.
Context {T : Type} (f : EdgeProcessor -> T).
Hypothesis f_gray : forall m p, f (set_grayBuffer m p) = f p.
Hypothesis f_blurred : forall m p, f (set_blurredBuffer m p) = f p.
Hypothesis f_edges : forall m p, f (set_edgesBuffer m p) = f p.
Hypothesis f_last : forall w h, preserves f (set_last w h).

Lemma yuv420ToGray_preserves (yuvData : list byte) (width height : Z) :
  preserves f (yuv420ToGray yuvData width height).
Proof.
  unfold yuv420ToGray.
  apply preserves_bind_get; intros p.
  apply preserves_bind.
  - apply preserves_if; [|apply preserves_ret].
    apply preserves_bind; [apply preserves_zoom, f_gray | intros _; apply f_last].
  - intros _. apply preserves_bind; [apply preserves_zoom, f_gray|].
    intros _. apply preserves_bind_get; intros q. apply preserves_ret.
Qed.

Lemma processCanny_preserves (cv : ImgProc) (yuvData : list byte) (width height : Z) :
  preserves f (processCanny cv yuvData width height).
Proof.
  unfold processCanny.
  apply preserves_bind; [apply yuv420ToGray_preserves|]. intros grayMat.
  apply preserves_bind_get; intros p.
  apply preserves_bind;
    [apply preserves_if; [apply preserves_zoom, f_blurred | apply preserves_ret]|].
  intros _. apply preserves_bind_get; intros p1.
  apply preserves_bind;
    [apply preserves_if; [apply preserves_zoom, f_edges | apply preserves_ret]|].
  intros _. apply preserves_bind; [apply preserves_zoom, f_blurred|].
  intros _. apply preserves_bind_get; intros p2.
  apply preserves_bind; [apply preserves_zoom, f_edges|].
  intros _. apply preserves_bind_get; intros p3. apply preserves_ret.
Qed.
End Untouched.

Lemma set_last_parameters (w h : Z) : preserves parameters (set_last w h).
Proof. intros p. reflexivity. Qed.

Lemma set_last_edge_buffers (w h : Z) : preserves edge_buffers (set_last w h).
Proof. intros p. reflexivity. Qed.

Lemma do_call_parameters (cv : ImgProc) (c : call) : preserves parameters (do_call cv c).
Proof.
  destruct c as [yuvData width height | yuvData width height]; cbn [do_call].
  - apply yuv420ToGray_preserves; [reflexivity | apply set_last_parameters].
  - apply processCanny_preserves; try reflexivity. apply set_last_parameters.
Qed.

(** X6.  yuv420ToGray and processCanny never change the thresholds or the
    aperture, and yuv420ToGray never touches the blurred and edges buffers:
    this holds for every processor state and all arguments, whether the call
    returns or throws. *)
Theorem calls_keep_settings (cv : ImgProc) (yuvData : list byte) (width height : Z) :
  preserves parameters (yuv420ToGray yuvData width height) /\
  preserves parameters (processCanny cv yuvData width height) /\
  preserves edge_buffers (yuv420ToGray yuvData width height).
Proof.
  split; [exact (do_call_parameters cv (ToGray yuvData width height))|].
  split; [exact (do_call_parameters cv (ToEdges yuvData width height))|].
  apply yuv420ToGray_preserves; [reflexivity | apply set_last_edge_buffers].
Qed.

(** X7.  The aperture handed to cv::Canny is 3 in every state a processor
    can reach: no member function changes it after the constructor. *)
Theorem aperture_is_always_3 (cv : ImgProc) (p : EdgeProcessor) :
  reachable cv p -> cannyApertureSize p = 3.
Proof.
  assert (Hstep : forall c q q',
            (exists m, do_call cv c q = Ret m q') \/ (exists e, do_call cv c q = Exc e q') ->
            cannyApertureSize q' = cannyApertureSize q).
  { intros c q q' Hcall. pose proof (do_call_parameters cv c q) as Hk.
    destruct Hcall as [(m & Hcall) | (e & Hcall)]; rewrite Hcall in Hk;
      unfold parameters in Hk; congruence. }
  induction 1 as [ | p t1 t2 u p' _ IH Hcall
                   | p yuvData width height m p' _ IH Hcall
                   | p yuvData width height e p' _ IH Hcall
                   | p yuvData width height m p' _ IH Hcall
                   | p yuvData width height e p' _ IH Hcall ].
  - reflexivity.
  - unfold setCannyThresholds in Hcall. injection Hcall as _ <-. exact IH.
  - rewrite (Hstep (ToGray yuvData width height) p p'); [exact IH | left; eauto].
  - rewrite (Hstep (ToGray yuvData width height) p p'); [exact IH | right; eauto].
  - rewrite (Hstep (ToEdges yuvData width height) p p'); [exact IH | left; eauto].
  - rewrite (Hstep (ToEdges yuvData width height) p p'); [exact IH | right; eauto].
Qed.

Lemma aperture_is_always_3_witness : cannyApertureSize processor_after_throw = 3.
Proof.
  exact (aperture_is_always_3 sample_cv processor_after_throw
           processor_after_throw_reachable).
Defined.

(** ** Calls in sequence *)

Lemma dims_differ_buffer_after (b : Mat) (content : list byte) (width height : Z) :
  dense b -> 0 <= width -> 0 <= height ->
  dims_differ (buffer_after content width height b) width height = false.
Proof.
  intros Hd Hw Hh. apply dims_differ_false.
  destruct (sized_header b width height Hd Hw Hh) as (Hr & Hc & _).
  unfold buffer_after, with_data; cbn [rows cols]. auto.
Qed.

Lemma buffer_after_again (b : Mat) (content content' : list byte) (width height : Z) :
  dense b -> 0 <= width -> 0 <= height ->
  buffer_after content' width height (buffer_after content width height b)
  = with_data content' (buffer_after content width height b).
Proof.
  intros Hd Hw Hh. unfold buffer_after at 1. unfold sized.
  now rewrite dims_differ_buffer_after.
Qed.

Lemma after_toGray_again (p : EdgeProcessor) (yuvData : list byte) (width height : Z) :
  dense (grayBuffer p) -> 0 <= width -> 0 <= height ->
  after_toGray yuvData width height (after_toGray yuvData width height p)
  = after_toGray yuvData width height p.
Proof.
  intros Hd Hw Hh. unfold after_toGray at 1.
  cbn [after_toGray grayBuffer blurredBuffer edgesBuffer lastWidth lastHeight
       cannyThreshold1 cannyThreshold2 cannyApertureSize].
  rewrite buffer_after_again, dims_differ_buffer_after by assumption.
  reflexivity.
Qed.

Lemma after_toEdges_again (cv : ImgProc) (p : EdgeProcessor) (yuvData : list byte)
    (width height : Z) :
  wf_EdgeProcessor p -> 0 <= width -> 0 <= height ->
  after_toEdges cv yuvData width height (after_toEdges cv yuvData width height p)
  = after_toEdges cv yuvData width height p.
Proof.
  intros (Hg & Hb & He) Hw Hh. unfold after_toEdges at 1.
  cbn [after_toEdges grayBuffer blurredBuffer edgesBuffer lastWidth lastHeight
       cannyThreshold1 cannyThreshold2 cannyApertureSize].
  rewrite !buffer_after_again, dims_differ_buffer_after by assumption.
  reflexivity.
Qed.

Lemma toGray_after_toEdges (cv : ImgProc) (p : EdgeProcessor) (yuvData : list byte)
    (width height : Z) :
  dense (grayBuffer p) -> 0 <= width -> 0 <= height ->
  after_toGray yuvData width height (after_toEdges cv yuvData width height p)
  = after_toEdges cv yuvData width height p.
Proof.
  intros Hd Hw Hh. unfold after_toGray.
  cbn [after_toEdges grayBuffer blurredBuffer edgesBuffer lastWidth lastHeight
       cannyThreshold1 cannyThreshold2 cannyApertureSize].
  rewrite buffer_after_again, dims_differ_buffer_after by assumption.
  reflexivity.
Qed.

(** X5.  On a valid frame, a second identical call changes nothing: after
    yuv420ToGray or processCanny has returned, the same call on the same
    frame returns the same matrix and leaves the processor exactly as it was
    (no buffer reallocated, no field changed); and yuv420ToGray after
    processCanny on that frame is such a call too. *)
Theorem second_call_changes_nothing (cv : ImgProc) (p : EdgeProcessor)
    (yuvData : list byte) (width height : Z) :
  wf_EdgeProcessor p -> valid_frame yuvData width height ->
  (exists gray p1,
     yuv420ToGray yuvData width height p = Ret gray p1 /\
     yuv420ToGray yuvData width height p1 = Ret gray p1) /\
  (exists edges p1,
     processCanny cv yuvData width height p = Ret edges p1 /\
     processCanny cv yuvData width height p1 = Ret edges p1 /\
     yuv420ToGray yuvData width height p1 = Ret (grayBuffer p1) p1).
Proof.
  intros Hwf (Hw & Hh & Hint & Hlen). pose proof Hwf as (Hg & _).
  assert (Hw0 : 0 <= width) by lia. assert (Hh0 : 0 <= height) by lia.
  split.
  - exists (grayBuffer (after_toGray yuvData width height p)),
           (after_toGray yuvData width height p).
    split; [now apply yuv420ToGray_Ret|].
    pose proof (wf_after_toGray p yuvData width height Hwf Hw0 Hh0 Hlen) as (Hg1 & _).
    rewrite yuv420ToGray_Ret by assumption.
    now rewrite after_toGray_again.
  - exists (edgesBuffer (after_toEdges cv yuvData width height p)),
           (after_toEdges cv yuvData width height p).
    pose proof (wf_after_toEdges cv p yuvData width height Hwf Hw0 Hh0 Hlen) as Hwf1.
    split; [now apply processCanny_Ret|]. split.
    + rewrite processCanny_Ret by assumption. now rewrite after_toEdges_again.
    + destruct Hwf1 as (Hg1 & _).
      rewrite yuv420ToGray_Ret by assumption. now rewrite toGray_after_toEdges.
Qed.

Lemma second_call_changes_nothing_witness :
  (exists gray p1,
     yuv420ToGray frame_2x2 2 2 EdgeProcessor_new = Ret gray p1 /\
     yuv420ToGray frame_2x2 2 2 p1 = Ret gray p1) /\
  (exists edges p1,
     processCanny sample_cv frame_2x2 2 2 EdgeProcessor_new = Ret edges p1 /\
     processCanny sample_cv frame_2x2 2 2 p1 = Ret edges p1 /\
     yuv420ToGray frame_2x2 2 2 p1 = Ret (grayBuffer p1) p1).
Proof.
  exact (second_call_changes_nothing sample_cv EdgeProcessor_new frame_2x2 2 2
           wf_new valid_frame_2x2).
Defined.

(** ** The entry points on valid frames *)

Lemma positive_test (width height : Z) :
  0 < width -> 0 < height -> (width <=? 0) || (height <=? 0) = false.
Proof. intros Hw Hh. apply orb_false_iff. rewrite !Z.leb_gt. lia. Qed.

Lemma processFrameGrayscale_processed (env : JNIEnv) (inputData : list byte)
    (width height : Z) (g : Process) (p : EdgeProcessor) :
  GetByteArrayElements_null env = false ->
  g_edgeProcessor (initialized g) = Some p -> wf_EdgeProcessor p ->
  valid_frame inputData width height ->
  processFrameGrayscale env inputData width height g =
  Ret (if NewByteArray_null env then None else Some (Y_plane inputData width height))
      (mkProcess (Some (after_toGray inputData width height p))
         (logcat (initialized g) ++
          [if NewByteArray_null env then allocation_failed_entry
           else grayscale_done_entry env width height])).
Proof.
  intros Hpin Hp Hwf (Hw & Hh & Hint & Hlen). pose proof Hwf as (Hg & _ & _).
  pose proof (length_Y_plane inputData width height ltac:(nia)) as HlenY.
  unfold processFrameGrayscale.
  rewrite (bind_Ret _ _ _ _ _ (ensure_initialized g)), Hpin, positive_test by assumption.
  unfold try_catch, bind, on_processor, processGrayscale.
  rewrite Hp, yuv420ToGray_Ret by (assumption || lia).
  cbn [after_toGray grayBuffer].
  rewrite matToByteArray_buffer_after by (assumption || lia).
  unfold grayscale_done_entry, allocation_failed_entry.
  destruct (NewByteArray_null env); cbn.
  - reflexivity.
  - rewrite HlenY, (Z.mul_comm height width). reflexivity.
Qed.

Lemma processFrameCanny_processed (cv : ImgProc) (env : JNIEnv) (inputData : list byte)
    (width height : Z) (g : Process) (p : EdgeProcessor) :
  GetByteArrayElements_null env = false ->
  g_edgeProcessor (initialized g) = Some p -> wf_EdgeProcessor p ->
  valid_frame inputData width height ->
  processFrameCanny cv env inputData width height g =
  Ret (if NewByteArray_null env then None
       else Some (edge_pixels cv (cannyThreshold1 p) (cannyThreshold2 p)
                    (cannyApertureSize p) inputData width height))
      (mkProcess (Some (after_toEdges cv inputData width height p))
         (logcat (initialized g) ++
          [if NewByteArray_null env then allocation_failed_entry
           else canny_done_entry env width height])).
Proof.
  intros Hpin Hp Hwf Hv.
  destruct (toEdges_bytes cv p inputData width height Hwf Hv) as (Hret & Hbytes).
  destruct Hv as (Hw & Hh & Hint & Hlen).
  pose proof (length_edge_pixels cv (cannyThreshold1 p) (cannyThreshold2 p)
                (cannyApertureSize p) inputData width height ltac:(lia) ltac:(lia)) as HlenE.
  unfold processFrameCanny.
  rewrite (bind_Ret _ _ _ _ _ (ensure_initialized g)), Hpin, positive_test by assumption.
  unfold try_catch, bind, on_processor.
  rewrite Hp, Hret, Hbytes.
  unfold canny_done_entry, allocation_failed_entry.
  destruct (NewByteArray_null env); cbn.
  - reflexivity.
  - rewrite HlenE, (Z.mul_comm height width). reflexivity.
Qed.

(** X8.  When the Java runtime delivers the input bytes and the output
    array, on a valid frame and a well-formed processor: processFrameGrayscale
    returns exactly the first width*height bytes of the frame, and
    processFrameCanny exactly the edge map of the blurred Y plane under the
    processor's thresholds; each logs one info line whose byte count is
    width*height, and the process then holds the processor the core left. *)
Theorem valid_frame_through_jni (cv : ImgProc) (env : JNIEnv) (inputData : list byte)
    (width height : Z) (g : Process) (p : EdgeProcessor) :
  GetByteArrayElements_null env = false -> NewByteArray_null env = false ->
  g_edgeProcessor (initialized g) = Some p -> wf_EdgeProcessor p ->
  valid_frame inputData width height ->
  processFrameGrayscale env inputData width height g =
    Ret (Some (firstn (Z.to_nat (width * height)) inputData))
        (mkProcess (Some (after_toGray inputData width height p))
           (logcat (initialized g) ++ [grayscale_done_entry env width height])) /\
  processFrameCanny cv env inputData width height g =
    Ret (Some (edge_pixels cv (cannyThreshold1 p) (cannyThreshold2 p)
                 (cannyApertureSize p) inputData width height))
        (mkProcess (Some (after_toEdges cv inputData width height p))
           (logcat (initialized g) ++ [canny_done_entry env width height])).
Proof.
  intros Hpin Hnew Hp Hwf Hv. split.
  - rewrite (processFrameGrayscale_processed env inputData width height g p) by assumption.
    now rewrite Hnew.
  - rewrite (processFrameCanny_processed cv env inputData width height g p) by assumption.
    now rewrite Hnew.
Qed.

Lemma valid_frame_through_jni_witness :
  processFrameGrayscale jni_ok frame_2x2 2 2 Process_start =
    Ret (Some (firstn (Z.to_nat (2 * 2)) frame_2x2))
        (mkProcess (Some (after_toGray frame_2x2 2 2 EdgeProcessor_new))
           (logcat (initialized Process_start) ++ [grayscale_done_entry jni_ok 2 2])) /\
  processFrameCanny sample_cv jni_ok frame_2x2 2 2 Process_start =
    Ret (Some (edge_pixels sample_cv (cannyThreshold1 EdgeProcessor_new)
                 (cannyThreshold2 EdgeProcessor_new)
                 (cannyApertureSize EdgeProcessor_new) frame_2x2 2 2))
        (mkProcess (Some (after_toEdges sample_cv frame_2x2 2 2 EdgeProcessor_new))
           (logcat (initialized Process_start) ++ [canny_done_entry jni_ok 2 2])).
Proof.
  exact (valid_frame_through_jni sample_cv jni_ok frame_2x2 2 2 Process_start
           EdgeProcessor_new eq_refl eq_refl eq_refl wf_new valid_frame_2x2).
Defined.

(** X9.  When the output array cannot be created, a call on a valid frame
    returns null and logs "Failed to allocate output array", but the frame
    has been processed all the same: the process holds the processor with
    its buffers reallocated as needed and overwritten with this frame's
    data. *)
Theorem output_allocation_failure (cv : ImgProc) (env : JNIEnv) (inputData : list byte)
    (width height : Z) (g : Process) (p : EdgeProcessor) :
  GetByteArrayElements_null env = false -> NewByteArray_null env = true ->
  g_edgeProcessor (initialized g) = Some p -> wf_EdgeProcessor p ->
  valid_frame inputData width height ->
  processFrameGrayscale env inputData width height g =
    Ret None (mkProcess (Some (after_toGray inputData width height p))
                (logcat (initialized g) ++ [allocation_failed_entry])) /\
  processFrameCanny cv env inputData width height g =
    Ret None (mkProcess (Some (after_toEdges cv inputData width height p))
                (logcat (initialized g) ++ [allocation_failed_entry])) /\
  data (grayBuffer (after_toGray inputData width height p))
    = firstn (Z.to_nat (width * height)) inputData.
Proof.
  intros Hpin Hnew Hp Hwf Hv. split; [|split].
  - rewrite (processFrameGrayscale_processed env inputData width height g p) by assumption.
    now rewrite Hnew.
  - rewrite (processFrameCanny_processed cv env inputData width height g p) by assumption.
    now rewrite Hnew.
  - reflexivity.
Qed.

Lemma output_allocation_failure_witness :
  processFrameGrayscale jni_no_output frame_2x2 2 2 Process_start =
    Ret None (mkProcess (Some (after_toGray frame_2x2 2 2 EdgeProcessor_new))
                (logcat (initialized Process_start) ++ [allocation_failed_entry])) /\
  processFrameCanny sample_cv jni_no_output frame_2x2 2 2 Process_start =
    Ret None (mkProcess (Some (after_toEdges sample_cv frame_2x2 2 2 EdgeProcessor_new))
                (logcat (initialized Process_start) ++ [allocation_failed_entry])) /\
  data (grayBuffer (after_toGray frame_2x2 2 2 EdgeProcessor_new))
    = firstn (Z.to_nat (2 * 2)) frame_2x2.
Proof.
  exact (output_allocation_failure sample_cv jni_no_output frame_2x2 2 2 Process_start
           EdgeProcessor_new eq_refl eq_refl eq_refl wf_new valid_frame_2x2).
Defined.

(** ** The entry points on any input *)

(** One more line under the layer's tag, and a processor in place. *)
Ltac logged_with e :=
  split; [eexists; reflexivity|];
  exists e; split; [reflexivity|]; split; [reflexivity|];
  split; split; intros Hcase;
  first [ reflexivity | discriminate Hcase | discriminate
        | exfalso; apply Hcase; reflexivity ].

Lemma logged_after_work {A} (what fmt : string) (env : JNIEnv) (width height : Z)
    (toBytes : A -> list byte) (work : M EdgeProcessor A) (g0 : Process)
    (p : EdgeProcessor) (front : list log_entry) :
  g_edgeProcessor g0 = Some p -> logcat g0 = front ->
  match
    try_catch what
      (a <- on_processor work ;;
       let resultBytes := toBytes a in
       if NewByteArray_null env then
         LOGE "Failed to allocate output array"%string [] ;; ret None
       else
         LOGI fmt [ArgInt width; ArgInt height; ArgInt (elapsed_ms env);
                   ArgInt (Z.of_nat (length resultBytes))] ;;
         ret (Some resultBytes)) g0
  with
  | Ret r g' =>
      (exists p', g_edgeProcessor g' = Some p') /\
      exists e, logcat g' = front ++ [e] /\ log_tag e = LOG_TAG /\
                (r = None <-> log_prio e = ANDROID_LOG_ERROR) /\
                (r <> None <-> log_prio e = ANDROID_LOG_INFO)
  | Exc _ _ => False
  | UB => True
  end.
Proof.
  intros Hp Hfront. unfold try_catch, bind, on_processor. rewrite Hp, Hfront.
  destruct (work p) as [a p' | [msg|msg|] p' | ]; [| | | |exact I].
  - destruct (NewByteArray_null env); cbn.
    + logged_with (mkLog ANDROID_LOG_ERROR LOG_TAG "Failed to allocate output array"%string []).
    + logged_with (mkLog ANDROID_LOG_INFO LOG_TAG fmt
                     [ArgInt width; ArgInt height; ArgInt (elapsed_ms env);
                      ArgInt (Z.of_nat (length (toBytes a)))]).
  - cbn.
    logged_with (mkLog ANDROID_LOG_ERROR LOG_TAG
                   ("OpenCV exception in " ++ what ++ ": %s")%string [ArgStr msg]).
  - cbn.
    logged_with (mkLog ANDROID_LOG_ERROR LOG_TAG
                   ("Standard exception in " ++ what ++ ": %s")%string [ArgStr msg]).
  - cbn.
    logged_with (mkLog ANDROID_LOG_ERROR LOG_TAG
                   ("Unknown exception in " ++ what)%string []).
Qed.

Lemma logged_early (g : Process) (fmt : string) (args : list log_arg) :
  jni_discipline g ((LOGE fmt args ;; ret None) (initialized g)).
Proof.
  destruct (initialized_processor g) as (p0 & Hp0 & _).
  cbn. split; [exists p0; exact Hp0|].
  exists (mkLog ANDROID_LOG_ERROR LOG_TAG fmt args).
  split; [reflexivity|]. split; [reflexivity|].
  split; split; intros Hcase;
    first [ reflexivity | discriminate Hcase | exfalso; apply Hcase; reflexivity ].
Qed.

(** X10.  For every frame, width, height, process state and behaviour of the
    Java runtime, processFrameCanny and processFrameGrayscale never let a
    C++ exception through; and whenever they return, the process holds a
    processor and exactly one line has been logged under the layer's tag
    after initialisation: an error line exactly when the result is null, an
    info line exactly when it is not. *)
Theorem entry_points_catch_and_log (cv : ImgProc) (env : JNIEnv) (inputData : list byte)
    (width height : Z) (g : Process) :
  jni_discipline g (processFrameCanny cv env inputData width height g) /\
  jni_discipline g (processFrameGrayscale env inputData width height g).
Proof.
  destruct (initialized_processor g) as (p0 & Hp0 & _).
  split.
  - unfold processFrameCanny.
    rewrite (bind_Ret _ _ _ _ _ (ensure_initialized g)).
    destruct (GetByteArrayElements_null env); [apply logged_early|].
    destruct ((width <=? 0) || (height <=? 0)).
    + unfold try_catch.
      pose proof (logged_early g "Invalid dimensions: %dx%d"%string
                    [ArgInt width; ArgInt height]) as Hlog.
      unfold jni_discipline in Hlog. cbn in Hlog |- *. exact Hlog.
    + exact (logged_after_work "processCanny"%string _ env width height matToByteArray
               (processCanny cv inputData width height) (initialized g) p0 _ Hp0 eq_refl).
  - unfold processFrameGrayscale.
    rewrite (bind_Ret _ _ _ _ _ (ensure_initialized g)).
    destruct (GetByteArrayElements_null env); [apply logged_early|].
    destruct ((width <=? 0) || (height <=? 0)).
    + unfold try_catch.
      pose proof (logged_early g "Invalid dimensions: %dx%d"%string
                    [ArgInt width; ArgInt height]) as Hlog.
      unfold jni_discipline in Hlog. cbn in Hlog |- *. exact Hlog.
    + exact (logged_after_work "processGrayscale"%string _ env width height matToByteArray
               (processGrayscale inputData width height) (initialized g) p0 _ Hp0 eq_refl).
Qed.

(** ** Calls of the entry points in sequence *)

Lemma reused_buffer_after (b : Mat) (c1 c2 : list byte) (width height : Z) :
  dense b -> 0 < width -> 0 < height ->
  Z.of_nat (length c1) = height * width -> Z.of_nat (length c2) = height * width ->
  reused (buffer_after c1 width height b)
         (buffer_after c2 width height (buffer_after c1 width height b)).
Proof.
  intros Hd Hw Hh Hl1 Hl2.
  pose proof (buffer_after_dense b c1 width height Hd ltac:(lia) ltac:(lia) Hl1) as Hd1.
  destruct (buffer_after_policy _ c2 width height Hd1 Hw Hh Hl2) as (_ & Hreuse & _).
  apply Hreuse. apply dims_differ_buffer_after; (assumption || lia).
Qed.

(** X11.  The processor is shared by the calls of a process: when two valid
    frames of the same size go through processFrameCanny one after the
    other, the second call returns its own edge map, reuses all three
    buffers of the first (same allocation, same size), constructs no new
    processor and adds one info line to the log; and a processFrameCanny
    that follows a processFrameGrayscale of that size reuses its gray
    buffer. *)
Theorem consecutive_frames_reuse_buffers (cv : ImgProc) (env1 env2 : JNIEnv)
    (frame1 frame2 : list byte) (width height : Z) (g : Process) (p : EdgeProcessor) :
  GetByteArrayElements_null env1 = false -> NewByteArray_null env1 = false ->
  GetByteArrayElements_null env2 = false -> NewByteArray_null env2 = false ->
  g_edgeProcessor (initialized g) = Some p -> wf_EdgeProcessor p ->
  valid_frame frame1 width height -> valid_frame frame2 width height ->
  (exists bytes1 g1 p1 g2 p2,
     processFrameCanny cv env1 frame1 width height g = Ret (Some bytes1) g1 /\
     g_edgeProcessor g1 = Some p1 /\
     processFrameCanny cv env2 frame2 width height g1 =
       Ret (Some (edge_pixels cv (cannyThreshold1 p) (cannyThreshold2 p)
                    (cannyApertureSize p) frame2 width height)) g2 /\
     g_edgeProcessor g2 = Some p2 /\
     reused (grayBuffer p1) (grayBuffer p2) /\
     reused (blurredBuffer p1) (blurredBuffer p2) /\
     reused (edgesBuffer p1) (edgesBuffer p2) /\
     logcat g2 = logcat g1 ++ [canny_done_entry env2 width height]) /\
  (exists bytes1 g1 p1 bytes2 g2 p2,
     processFrameGrayscale env1 frame1 width height g = Ret (Some bytes1) g1 /\
     g_edgeProcessor g1 = Some p1 /\
     processFrameCanny cv env2 frame2 width height g1 = Ret (Some bytes2) g2 /\
     g_edgeProcessor g2 = Some p2 /\
     reused (grayBuffer p1) (grayBuffer p2)).
Proof.
  intros Hpin1 Hnew1 Hpin2 Hnew2 Hp Hwf Hv1 Hv2.
  pose proof Hv1 as (Hw & Hh & _ & Hlen1). pose proof Hv2 as (_ & _ & _ & Hlen2).
  pose proof Hwf as (Hg & Hb & He).
  assert (Hw0 : 0 <= width) by lia. assert (Hh0 : 0 <= height) by lia.
  pose proof (length_Y_plane frame1 width height ltac:(nia)) as HY1.
  pose proof (length_Y_plane frame2 width height ltac:(nia)) as HY2.
  split.
  - pose proof (processFrameCanny_processed cv env1 frame1 width height g p
                  Hpin1 Hp Hwf Hv1) as Hcall1.
    rewrite Hnew1 in Hcall1.
    set (p1 := after_toEdges cv frame1 width height p) in *.
    set (g1 := mkProcess (Some p1) _) in Hcall1.
    assert (Hp1 : g_edgeProcessor (initialized g1) = Some p1)
      by now rewrite (initialized_idle g1 p1 eq_refl).
    assert (Hwf1 : wf_EdgeProcessor p1) by (apply wf_after_toEdges; assumption).
    pose proof (processFrameCanny_processed cv env2 frame2 width height g1 p1
                  Hpin2 Hp1 Hwf1 Hv2) as Hcall2.
    rewrite Hnew2, (initialized_idle g1 p1 eq_refl) in Hcall2.
    eexists _, g1, p1, _, (after_toEdges cv frame2 width height p1).
    split; [exact Hcall1|]. split; [reflexivity|].
    split; [exact Hcall2|]. split; [reflexivity|].
    subst p1. cbn [after_toEdges grayBuffer blurredBuffer edgesBuffer
                   cannyThreshold1 cannyThreshold2 cannyApertureSize].
    split; [apply reused_buffer_after; (assumption || lia)|].
    split; [apply reused_buffer_after;
            (assumption || (apply length_blur_pixels; lia))|].
    split; [apply reused_buffer_after;
            (assumption || (apply length_edge_pixels; lia))|].
    reflexivity.
  - pose proof (processFrameGrayscale_processed env1 frame1 width height g p
                  Hpin1 Hp Hwf Hv1) as Hcall1.
    rewrite Hnew1 in Hcall1.
    set (p1 := after_toGray frame1 width height p) in *.
    set (g1 := mkProcess (Some p1) _) in Hcall1.
    assert (Hp1 : g_edgeProcessor (initialized g1) = Some p1)
      by now rewrite (initialized_idle g1 p1 eq_refl).
    assert (Hwf1 : wf_EdgeProcessor p1) by (apply wf_after_toGray; assumption).
    pose proof (processFrameCanny_processed cv env2 frame2 width height g1 p1
                  Hpin2 Hp1 Hwf1 Hv2) as Hcall2.
    rewrite Hnew2 in Hcall2.
    eexists _, g1, p1, _, _, (after_toEdges cv frame2 width height p1).
    split; [exact Hcall1|]. split; [reflexivity|].
    split; [exact Hcall2|]. split; [reflexivity|].
    subst p1. cbn [after_toEdges after_toGray grayBuffer].
    apply reused_buffer_after; (assumption || lia).
Qed.

Lemma consecutive_frames_reuse_buffers_witness :
  (exists bytes1 g1 p1 g2 p2,
     processFrameCanny sample_cv jni_ok frame_2x2 2 2 Process_start = Ret (Some bytes1) g1 /\
     g_edgeProcessor g1 = Some p1 /\
     processFrameCanny sample_cv jni_ok frame_2x2_b 2 2 g1 =
       Ret (Some (edge_pixels sample_cv (cannyThreshold1 EdgeProcessor_new)
                    (cannyThreshold2 EdgeProcessor_new)
                    (cannyApertureSize EdgeProcessor_new) frame_2x2_b 2 2)) g2 /\
     g_edgeProcessor g2 = Some p2 /\
     reused (grayBuffer p1) (grayBuffer p2) /\
     reused (blurredBuffer p1) (blurredBuffer p2) /\
     reused (edgesBuffer p1) (edgesBuffer p2) /\
     logcat g2 = logcat g1 ++ [canny_done_entry jni_ok 2 2]) /\
  (exists bytes1 g1 p1 bytes2 g2 p2,
     processFrameGrayscale jni_ok frame_2x2 2 2 Process_start = Ret (Some bytes1) g1 /\
     g_edgeProcessor g1 = Some p1 /\
     processFrameCanny sample_cv jni_ok frame_2x2_b 2 2 g1 = Ret (Some bytes2) g2 /\
     g_edgeProcessor g2 = Some p2 /\
     reused (grayBuffer p1) (grayBuffer p2)).
Proof.
  apply (consecutive_frames_reuse_buffers sample_cv jni_ok jni_ok frame_2x2 frame_2x2_b
           2 2 Process_start EdgeProcessor_new); try reflexivity.
  - exact wf_new.
  - exact valid_frame_2x2.
  - unfold valid_frame, INT_MAX; simpl; lia.
Defined.

Lemma rejected_leaves_processor (cv : ImgProc) (env : JNIEnv) (inputData : list byte)
    (width height : Z) (g : Process) :
  width <= 0 \/ height <= 0 ->
  (exists g1, processFrameCanny cv env inputData width height g = Ret None g1 /\
              g_edgeProcessor g1 = g_edgeProcessor (initialized g)) /\
  (exists g1, processFrameGrayscale env inputData width height g = Ret None g1 /\
              g_edgeProcessor g1 = g_edgeProcessor (initialized g)).
Proof.
  intros Hdims. destruct (GetByteArrayElements_null env) eqn:Hpin.
  - split; [now apply processFrameCanny_unpinned | now apply processFrameGrayscale_unpinned].
  - split.
    + rewrite processFrameCanny_invalid by assumption. eexists. split; reflexivity.
    + rewrite processFrameGrayscale_invalid by assumption. eexists. split; reflexivity.
Qed.

(** X12.  A rejected call is invisible to the calls that follow: a valid
    call made right after a call with width <= 0 or height <= 0 (of either
    entry point, on any frame) returns the same bytes and leaves the same
    processor as if the rejected call had not been made. *)
Theorem rejected_call_is_isolated (cv : ImgProc) (env env' : JNIEnv)
    (bad good : list byte) (w h width height : Z) (g : Process) (p : EdgeProcessor) :
  w <= 0 \/ h <= 0 ->
  GetByteArrayElements_null env' = false -> NewByteArray_null env' = false ->
  g_edgeProcessor (initialized g) = Some p -> wf_EdgeProcessor p ->
  valid_frame good width height ->
  exists bytes g2 g2' gray g3 g3',
    (processFrameCanny cv env bad w h ;;
     processFrameCanny cv env' good width height) g = Ret (Some bytes) g2 /\
    processFrameCanny cv env' good width height g = Ret (Some bytes) g2' /\
    g_edgeProcessor g2 = g_edgeProcessor g2' /\
    (processFrameGrayscale env bad w h ;;
     processFrameGrayscale env' good width height) g = Ret (Some gray) g3 /\
    processFrameGrayscale env' good width height g = Ret (Some gray) g3' /\
    g_edgeProcessor g3 = g_edgeProcessor g3'.
Proof.
  intros Hdims Hpin Hnew Hp Hwf Hv.
  destruct (rejected_leaves_processor cv env bad w h g Hdims)
    as ((gc & Hrejc & Hgc) & (gg & Hrejg & Hgg)).
  rewrite Hp in Hgc, Hgg.
  assert (Hpc : g_edgeProcessor (initialized gc) = Some p)
    by now rewrite (initialized_idle gc p Hgc).
  assert (Hpg : g_edgeProcessor (initialized gg) = Some p)
    by now rewrite (initialized_idle gg p Hgg).
  pose proof (processFrameCanny_processed cv env' good width height gc p Hpin Hpc Hwf Hv)
    as Hseqc.
  pose proof (processFrameCanny_processed cv env' good width height g p Hpin Hp Hwf Hv)
    as Hdirc.
  pose proof (processFrameGrayscale_processed env' good width height gg p Hpin Hpg Hwf Hv)
    as Hseqg.
  pose proof (processFrameGrayscale_processed env' good width height g p Hpin Hp Hwf Hv)
    as Hdirg.
  rewrite Hnew in Hseqc, Hdirc, Hseqg, Hdirg.
  do 6 eexists.
  split; [rewrite (bind_Ret _ _ _ _ _ Hrejc); exact Hseqc|].
  split; [exact Hdirc|]. split; [reflexivity|].
  split; [rewrite (bind_Ret _ _ _ _ _ Hrejg); exact Hseqg|].
  split; [exact Hdirg | reflexivity].
Qed.

Lemma rejected_call_is_isolated_witness :
  exists bytes g2 g2' gray g3 g3',
    (processFrameCanny sample_cv jni_ok short_frame 0 (-1) ;;
     processFrameCanny sample_cv jni_ok frame_2x2 2 2) Process_start = Ret (Some bytes) g2 /\
    processFrameCanny sample_cv jni_ok frame_2x2 2 2 Process_start = Ret (Some bytes) g2' /\
    g_edgeProcessor g2 = g_edgeProcessor g2' /\
    (processFrameGrayscale jni_ok short_frame 0 (-1) ;;
     processFrameGrayscale jni_ok frame_2x2 2 2) Process_start = Ret (Some gray) g3 /\
    processFrameGrayscale jni_ok frame_2x2 2 2 Process_start = Ret (Some gray) g3' /\
    g_edgeProcessor g3 = g_edgeProcessor g3'.
Proof.
  apply (rejected_call_is_isolated sample_cv jni_ok jni_ok short_frame frame_2x2
           0 (-1) 2 2 Process_start EdgeProcessor_new); try reflexivity.
  - left. lia.
  - exact wf_new.
  - exact valid_frame_2x2.
Defined.

(** ** More on serialization and on what the frame contributes *)

Lemma row_major_same_pixels (m1 m2 : Mat) :
  same_pixels m1 m2 -> row_major m1 = row_major m2.
Proof.
  intros (Hr & Hc & Hpx). unfold row_major. rewrite <- Hr, <- Hc.
  rewrite !flat_map_concat_map. f_equal.
  apply map_ext_in. intros i Hi. apply in_seq in Hi.
  apply map_ext_in. intros j Hj. apply in_seq in Hj.
  apply Hpx; lia.
Qed.

(** X13.  What lies between the rows never reaches the output: two
    well-formed matrices with the same size and the same pixels serialize to
    the same bytes, whatever their steps, continuity flags and padding
    bytes. *)
Theorem matToByteArray_ignores_padding (m1 m2 : Mat) :
  wf_Mat m1 -> wf_Mat m2 -> same_pixels m1 m2 ->
  matToByteArray m1 = matToByteArray m2.
Proof.
  intros Hwf1 Hwf2 Hsame.
  rewrite !matToByteArray_reads_rows by assumption.
  now apply row_major_same_pixels.
Qed.

Lemma wf_roi_2x3 : wf_Mat roi_2x3.
Proof.
  unfold wf_Mat; simpl.
  split; [lia|]. split; [lia|]. split; [lia|]. split.
  - intros H; discriminate H.
  - intros _; lia.
Defined.

Lemma wf_packed_2x3 : wf_Mat packed_2x3.
Proof.
  unfold wf_Mat; simpl.
  split; [lia|]. split; [lia|]. split; [lia|]. split.
  - intros _. now right.
  - intros _; lia.
Defined.

Lemma roi_packed_same_pixels : same_pixels roi_2x3 packed_2x3.
Proof.
  split; [reflexivity|]. split; [reflexivity|].
  intros i j Hi Hj. simpl in Hi, Hj.
  destruct i as [|[|i]]; [| |lia];
    (destruct j as [|[|[|j]]]; [reflexivity | reflexivity | reflexivity | lia]).
Defined.

Lemma matToByteArray_ignores_padding_witness :
  matToByteArray roi_2x3 = matToByteArray packed_2x3.
Proof.
  exact (matToByteArray_ignores_padding roi_2x3 packed_2x3
           wf_roi_2x3 wf_packed_2x3 roi_packed_same_pixels).
Defined.

(** X14.  Only the luma plane of a frame counts: two valid frames that agree
    on their first width*height bytes make yuv420ToGray and processCanny
    return the same matrix and leave the same processor, whatever their
    chroma bytes and lengths. *)
Theorem chroma_is_ignored (cv : ImgProc) (p : EdgeProcessor) (frame1 frame2 : list byte)
    (width height : Z) :
  wf_EdgeProcessor p ->
  valid_frame frame1 width height -> valid_frame frame2 width height ->
  firstn (Z.to_nat (width * height)) frame1 = firstn (Z.to_nat (width * height)) frame2 ->
  yuv420ToGray frame1 width height p = yuv420ToGray frame2 width height p /\
  processCanny cv frame1 width height p = processCanny cv frame2 width height p.
Proof.
  intros Hwf (Hw & Hh & Hint & Hlen1) (_ & _ & _ & Hlen2) Hluma.
  pose proof Hwf as (Hg & _).
  assert (HY : Y_plane frame1 width height = Y_plane frame2 width height) by exact Hluma.
  split.
  - rewrite !yuv420ToGray_Ret by (assumption || lia).
    unfold after_toGray. now rewrite HY.
  - rewrite !processCanny_Ret by assumption.
    unfold after_toEdges, edge_pixels, blur_pixels. now rewrite HY.
Qed.

Lemma chroma_is_ignored_witness :
  yuv420ToGray frame_2x2 2 2 EdgeProcessor_new
    = yuv420ToGray [x0a; xc8; xff; x14] 2 2 EdgeProcessor_new /\
  processCanny sample_cv frame_2x2 2 2 EdgeProcessor_new
    = processCanny sample_cv [x0a; xc8; xff; x14] 2 2 EdgeProcessor_new.
Proof.
  apply (chroma_is_ignored sample_cv EdgeProcessor_new frame_2x2 [x0a; xc8; xff; x14] 2 2).
  - exact wf_new.
  - exact valid_frame_2x2.
  - unfold valid_frame, INT_MAX; simpl; lia.
  - reflexivity.
Defined.

(** ** The recorded dimensions and the thresholds *)

Lemma do_call_last_dims (cv : ImgProc) (c : call) (p p' : EdgeProcessor) (out : Mat) :
  wf_EdgeProcessor p -> last_dims_current p ->
  do_call cv c p = Ret out p' -> last_dims_current p'.
Proof.
  intros Hwf (Hlw & Hlh) Hcall. pose proof Hwf as (Hg & _).
  assert (Hpost : rows (grayBuffer p') = call_height c /\
                  cols (grayBuffer p') = call_width c /\
                  lastWidth p' = (if dims_differ (grayBuffer p) (call_width c) (call_height c)
                                  then call_width c else lastWidth p) /\
                  lastHeight p' = (if dims_differ (grayBuffer p) (call_width c) (call_height c)
                                   then call_height c else lastHeight p)).
  { destruct c as [yuvData width height | yuvData width height];
      cbn [do_call call_width call_height] in *.
    - destruct (yuv420ToGray_Ret_inv p p' yuvData width height out Hg Hcall)
        as (Eout & _ & Hr & Hc & _ & _ & Hw' & Hh'). subst out. auto.
    - destruct (processCanny_Ret_inv cv p p' yuvData width height out Hwf Hcall)
        as (_ & (_ & Hr & Hc) & _ & _ & _ & Hw' & Hh'). auto. }
  destruct Hpost as (Hr & Hc & Hw' & Hh'). unfold last_dims_current.
  destruct (dims_differ (grayBuffer p) (call_width c) (call_height c)) eqn:Hdiff.
  - split; congruence.
  - apply dims_differ_false in Hdiff. destruct Hdiff. split; congruence.
Qed.

Lemma run_last_dims (cv : ImgProc) (cs : list call) :
  forall p p', wf_EdgeProcessor p -> last_dims_current p ->
    run cv cs p = Ret tt p' -> last_dims_current p'.
Proof.
  induction cs as [|c cs IH]; intros p p' Hwf Hlast Hrun.
  - cbn in Hrun. unfold ret in Hrun. injection Hrun as <-. exact Hlast.
  - cbn [run] in Hrun. unfold bind in Hrun.
    destruct (do_call cv c p) as [out p1 | | ] eqn:Hcall; try discriminate.
    apply (IH p1 p'); [| |exact Hrun].
    + assert (Hk : keeps wf_EdgeProcessor (do_call cv c))
        by (destruct c; [apply keeps_yuv420ToGray | apply keeps_processCanny]).
      specialize (Hk p Hwf). now rewrite Hcall in Hk.
    + exact (do_call_last_dims cv c p p1 out Hwf Hlast Hcall).
Qed.

(** X15.  As long as no call has thrown, the recorded dimensions are those
    of the gray buffer: after any sequence of yuv420ToGray and processCanny
    calls on a new processor that all returned, whatever their arguments,
    lastWidth is the gray buffer's number of columns and lastHeight its
    number of rows. *)
Theorem recorded_dimensions_follow_gray_buffer (cv : ImgProc) (cs : list call)
    (p : EdgeProcessor) :
  run cv cs EdgeProcessor_new = Ret tt p -> last_dims_current p.
Proof.
  apply run_last_dims; [exact wf_new | split; reflexivity].
Qed.

Lemma recorded_dimensions_follow_gray_buffer_witness :
  last_dims_current
    (after_toGray frame_2x2 2 2 (after_toEdges sample_cv frame_4x4_zero 4 4 EdgeProcessor_new)).
Proof.
  apply (recorded_dimensions_follow_gray_buffer sample_cv
           [ToEdges frame_4x4_zero 4 4; ToGray frame_2x2 2 2]).
  reflexivity.
Defined.

Lemma toEdges_outputs_held (cv : ImgProc) (yuvData : list byte) (width height : Z)
    (n : nat) :
  valid_frame yuvData width height ->
  forall p, wf_EdgeProcessor p ->
  exists p',
    toEdges_outputs cv yuvData width height n p =
      Ret (repeat (edge_pixels cv (cannyThreshold1 p) (cannyThreshold2 p)
                     (cannyApertureSize p) yuvData width height) n) p' /\
    parameters p' = parameters p.
Proof.
  intros Hv. induction n as [|n IH]; intros p Hwf.
  - exists p. split; reflexivity.
  - destruct (toEdges_bytes cv p yuvData width height Hwf Hv) as (Hret & Hbytes).
    assert (Hwf' : wf_EdgeProcessor (after_toEdges cv yuvData width height p)).
    { destruct Hv as (Hw & Hh & _ & Hlen). apply wf_after_toEdges; (assumption || lia). }
    destruct (IH _ Hwf') as (p' & Hrest & Hpar).
    exists p'. split; [|exact Hpar].
    cbn [toEdges_outputs repeat].
    rewrite (bind_Ret _ _ _ _ _ Hret), (bind_Ret _ _ _ _ _ Hrest).
    unfold ret. now rewrite Hbytes.
Qed.

(** X16.  setCannyThresholds takes any two doubles, without validation, and
    they are what every following processCanny uses until it is called
    again: after setCannyThresholds t1 t2, any number of processCanny calls
    on a valid frame each return the edge map computed with exactly t1 and
    t2 (the thresholds held before play no part), and t1 and t2 are still
    the processor's thresholds afterwards. *)
Theorem thresholds_apply_until_changed (cv : ImgProc) (p : EdgeProcessor)
    (yuvData : list byte) (width height : Z) (threshold1 threshold2 : float) (n : nat) :
  wf_EdgeProcessor p -> valid_frame yuvData width height ->
  exists p',
    (setCannyThresholds threshold1 threshold2 ;;
     toEdges_outputs cv yuvData width height n) p =
      Ret (repeat (edge_pixels cv threshold1 threshold2 (cannyApertureSize p)
                     yuvData width height) n) p' /\
    cannyThreshold1 p' = threshold1 /\ cannyThreshold2 p' = threshold2.
Proof.
  intros Hwf Hv.
  set (q := mkEdgeProcessor threshold1 threshold2 (cannyApertureSize p)
              (grayBuffer p) (blurredBuffer p) (edgesBuffer p)
              (lastWidth p) (lastHeight p)).
  assert (Hset : setCannyThresholds threshold1 threshold2 p = Ret tt q) by reflexivity.
  assert (Hwfq : wf_EdgeProcessor q) by exact Hwf.
  destruct (toEdges_outputs_held cv yuvData width height n Hv q Hwfq) as (p' & Hrun & Hpar).
  exists p'. rewrite (bind_Ret _ _ _ _ _ Hset).
  split; [exact Hrun|].
  unfold parameters in Hpar. cbn [q cannyThreshold1 cannyThreshold2 cannyApertureSize] in Hpar.
  injection Hpar as H1 H2 _. auto.
Qed.

Lemma thresholds_apply_until_changed_witness :
  exists p',
    (setCannyThresholds 200.0%float 20.0%float ;;
     toEdges_outputs sample_cv frame_2x2 2 2 2) EdgeProcessor_new =
      Ret (repeat (edge_pixels sample_cv 200.0%float 20.0%float
                     (cannyApertureSize EdgeProcessor_new) frame_2x2 2 2) 2) p' /\
    cannyThreshold1 p' = 200.0%float /\ cannyThreshold2 p' = 20.0%float.
Proof.
  exact (thresholds_apply_until_changed sample_cv EdgeProcessor_new frame_2x2 2 2
           200.0%float 20.0%float 2 wf_new valid_frame_2x2).
Defined.
